(** * Bonfire: shallow embedding of the message codec, identifiers,
    channel registry, channel worker and gateway pumps. *)

From Stdlib Require Import ZArith List String Ascii Bool Lia.
Import ListNotations.
Open Scope Z_scope.

(* ------------------------------------------------------------------ *)
(** ** Rust integer display and parsing (core::fmt, core::num)        *)
(* ------------------------------------------------------------------ *)

Module RustInt.

Definition U64_MAX : Z := 2 ^ 64 - 1.
Definition I64_MIN : Z := - 2 ^ 63.
Definition I64_MAX : Z := 2 ^ 63 - 1.

(** The ASCII character of a decimal digit [0 <= d < 10]. *)
Definition digit_char (d : Z) : ascii :=
  ascii_of_nat (48 + Z.to_nat d).

(** [char::to_digit(10)]. *)
Definition to_digit (c : ascii) : option Z :=
  let n := nat_of_ascii c in
  if (48 <=? n)%nat && (n <=? 57)%nat then Some (Z.of_nat n - 48) else None.

(** Decimal digits of a non-negative integer, most significant first
    ([fuel] bounds the number of digits). *)
Fixpoint fmt_digits (fuel : nat) (n : Z) : string :=
  match fuel with
  | O => EmptyString
  | S f =>
      if n <? 10 then String (digit_char n) EmptyString
      else append (fmt_digits f (n / 10)) (String (digit_char (n mod 10)) EmptyString)
  end.

(** [u64::to_string]. *)
Definition u64_to_string (n : Z) : string := fmt_digits 20 n.

(** [i64::to_string]: a minus sign, then the digits of the magnitude. *)
Definition i64_to_string (n : Z) : string :=
  if n <? 0 then String "-" (fmt_digits 20 (- n)) else fmt_digits 20 n.

(** [core::num::IntErrorKind]. *)
Inductive IntErrorKind := Empty | InvalidDigit | PosOverflow | NegOverflow.

(** [core::num::ParseIntError]. *)
Record ParseIntError := ParseIntError_ { kind : IntErrorKind }.

(** Rust's [Result<T, E>]. *)
Inductive result (T E : Type) :=
| Ok (v : T)
| Err (e : E).
Arguments Ok {T E} v.
Arguments Err {T E} e.

Definition ParseResult := result Z ParseIntError.
Definition perr (k : IntErrorKind) : ParseResult := Err (ParseIntError_ k).

(** The digit loop of [from_str_radix]: accumulate towards the sign,
    checking the multiplication and the addition (or subtraction) of
    every digit against the bounds [lo, hi] of the type. *)
Fixpoint digits_loop (lo hi : Z) (positive : bool) (acc : Z) (s : string)
  : ParseResult :=
  match s with
  | EmptyString => Ok acc
  | String c rest =>
      let mul := acc * 10 in
      match to_digit c with
      | None => perr InvalidDigit
      | Some x =>
          if positive then
            if mul <=? hi then
              if mul + x <=? hi then digits_loop lo hi positive (mul + x) rest
              else perr PosOverflow
            else perr PosOverflow
          else
            if lo <=? mul then
              if lo <=? mul - x then digits_loop lo hi positive (mul - x) rest
              else perr NegOverflow
            else perr NegOverflow
      end
  end.

(** [from_str_radix(src, 10)] for a type with bounds [lo, hi];
    [signed] says whether a leading minus sign is accepted. *)
Definition from_str_radix (signed : bool) (lo hi : Z) (src : string) : ParseResult :=
  match src with
  | EmptyString => perr Empty
  | String c rest =>
      if (Ascii.eqb c "+" || Ascii.eqb c "-") && String.eqb rest EmptyString
      then perr InvalidDigit
      else if Ascii.eqb c "+" then digits_loop lo hi true 0 rest
      else if signed && Ascii.eqb c "-" then digits_loop lo hi false 0 rest
      else digits_loop lo hi true 0 src
  end.

(** [u64::from_str] and [i64::from_str]. *)
Definition u64_from_str (s : string) : ParseResult := from_str_radix false 0 U64_MAX s.
Definition i64_from_str (s : string) : ParseResult := from_str_radix true I64_MIN I64_MAX s.

End RustInt.

(* ------------------------------------------------------------------ *)
(** ** Identifiers: src/channel.rs, src/user.rs, src/role.rs           *)
(* ------------------------------------------------------------------ *)

Module Ids.
Import RustInt.

(** [pub struct ChannelId(pub u64)], and likewise for users and roles. *)
Record ChannelId := ChannelId_ { channel_raw : Z }.
Record UserId := UserId_ { user_raw : Z }.
Record RoleId := RoleId_ { role_raw : Z }.

Definition u64_ok (n : Z) : Prop := 0 <= n <= U64_MAX.

(** [impl Display]: [f.write_str(self.0.to_string().as_str())]. *)
Definition display_channel (c : ChannelId) : string := u64_to_string (channel_raw c).
Definition display_user (u : UserId) : string := u64_to_string (user_raw u).
Definition display_role (r : RoleId) : string := u64_to_string (role_raw r).

(** [impl FromStr]: [Ok(ChannelId(u64::from_str(s)?))]. *)
Definition channel_from_str (s : string) : result ChannelId ParseIntError :=
  match u64_from_str s with
  | Ok v => Ok (ChannelId_ v)
  | Err e => Err e
  end.
Definition user_from_str (s : string) : result UserId ParseIntError :=
  match u64_from_str s with
  | Ok v => Ok (UserId_ v)
  | Err e => Err e
  end.
Definition role_from_str (s : string) : result RoleId ParseIntError :=
  match u64_from_str s with
  | Ok v => Ok (RoleId_ v)
  | Err e => Err e
  end.

End Ids.

(* ------------------------------------------------------------------ *)
(** ** Message content codec: src/message.rs                           *)
(* ------------------------------------------------------------------ *)

Module Message.
Import RustInt Ids.

Local Open Scope string_scope.

Definition ROLE_BLOCK_PREFIX : string := "@&".
Definition USER_BLOCK_PREFIX : string := "@".
Definition CHANNEL_BLOCK_PREFIX : string := "#".
Definition TIMESTAMP_BLOCK_PREFIX : string := "t:".

(** [format!("<{}{}>", prefix, value)]. *)
Definition format_role (role_id : RoleId) : string :=
  "<" ++ ROLE_BLOCK_PREFIX ++ display_role role_id ++ ">".
Definition format_user (user_id : UserId) : string :=
  "<" ++ USER_BLOCK_PREFIX ++ display_user user_id ++ ">".
Definition format_channel (channel_id : ChannelId) : string :=
  "<" ++ CHANNEL_BLOCK_PREFIX ++ display_channel channel_id ++ ">".
Definition format_timestamp (unix_timestamp : Z) : string :=
  "<" ++ TIMESTAMP_BLOCK_PREFIX ++ i64_to_string unix_timestamp ++ ">".

(** [pub enum MessageBlock]. *)
Inductive MessageBlock :=
| User (u : UserId)
| Channel (c : ChannelId)
| Role (r : RoleId)
| Timestamp (t : Z)
| Text (s : string).

(** [str::strip_prefix]. *)
Fixpoint strip_prefix (prefix s : string) : option string :=
  match prefix, s with
  | EmptyString, _ => Some s
  | String p ps, String c cs => if Ascii.eqb p c then strip_prefix ps cs else None
  | String _ _, EmptyString => None
  end.

(** [str::strip_suffix]: the part before [suffix] when [s] ends with it. *)
Fixpoint strip_suffix (suffix s : string) : option string :=
  if String.eqb s suffix then Some EmptyString
  else match s with
       | EmptyString => None
       | String c cs => option_map (String c) (strip_suffix suffix cs)
       end.

(** [decode_message_part]. [role.parse()] and [user.parse()] resolve to
    [FromStr] of [RoleId] and [UserId]; [channel.parse()] is inferred from
    the [MessageBlock::User] it is wrapped in, so it parses a [UserId];
    [timestamp.parse()] parses an [i64]. *)
Definition decode_message_part (original_part : string) : MessageBlock :=
  match strip_prefix "<" original_part with
  | None => Text original_part
  | Some stripped_part =>
  match strip_suffix ">" stripped_part with
  | None => Text original_part
  | Some stripped_part =>
  match strip_prefix ROLE_BLOCK_PREFIX stripped_part with
  | Some role =>
      match role_from_str role with
      | Err _ => Text original_part
      | Ok role_id => Role role_id
      end
  | None =>
  match strip_prefix USER_BLOCK_PREFIX stripped_part with
  | Some user =>
      match user_from_str user with
      | Err _ => Text original_part
      | Ok user_id => User user_id
      end
  | None =>
  match strip_prefix CHANNEL_BLOCK_PREFIX stripped_part with
  | Some channel =>
      match user_from_str channel with
      | Err _ => Text original_part
      | Ok channel_id => User channel_id
      end
  | None =>
  match strip_prefix TIMESTAMP_BLOCK_PREFIX stripped_part with
  | Some timestamp =>
      match i64_from_str timestamp with
      | Err _ => Text original_part
      | Ok timestamp => Timestamp timestamp
      end
  | None => Text original_part
  end end end end end end.

(** Vocabulary of the spec for malformed tokens: the mention prefixes in
    their priority order, the first one a token body starts with, and
    the shape of a decimal integer literal (an optional sign, then one
    or more ASCII digits). *)
Definition mention_prefixes : list string :=
  [ROLE_BLOCK_PREFIX; USER_BLOCK_PREFIX; CHANNEL_BLOCK_PREFIX; TIMESTAMP_BLOCK_PREFIX].

(** [str::starts_with]. *)
Definition starts_with (p s : string) : bool :=
  match strip_prefix p s with Some _ => true | None => false end.

Fixpoint first_prefix (ps : list string) (s : string) : option string :=
  match ps with
  | [] => None
  | p :: ps' => if starts_with p s then Some p else first_prefix ps' s
  end.

Definition recognized_prefix (inner : string) : option string :=
  first_prefix mention_prefixes inner.

Definition is_ascii_digit (c : ascii) : bool :=
  let n := nat_of_ascii c in (48 <=? n)%nat && (n <=? 57)%nat.

Fixpoint all_digits (s : string) : bool :=
  match s with
  | EmptyString => true
  | String c r => is_ascii_digit c && all_digits r
  end.

Definition some_digits (s : string) : bool :=
  match s with EmptyString => false | _ => all_digits s end.

Definition is_numeric (s : string) : bool :=
  match s with
  | EmptyString => false
  | String c r =>
      if Ascii.eqb c "+" || Ascii.eqb c "-" then some_digits r else some_digits s
  end.

(** A token the decoder should leave as text: it is not wrapped in angle
    brackets, or its body has no mention prefix, or the payload after
    its (first) mention prefix is not an integer literal. *)
Definition malformed (tok : string) : Prop :=
  (forall inner, tok <> String "<" (inner ++ ">"))
  \/ exists inner, tok = String "<" (inner ++ ">") /\
       (recognized_prefix inner = None \/
        exists p rest, recognized_prefix inner = Some p /\ inner = p ++ rest /\
                       is_numeric rest = false).

End Message.

(* ------------------------------------------------------------------ *)
(** ** Text channel worker: src/server/channel/text/{mod,search,worker}.rs *)
(* ------------------------------------------------------------------ *)

Module TextChannel.
Import Ids.

(** [pub struct TextChannelMessage]. *)
Record TextChannelMessage := {
  author : UserId;
  timestamp_ms : Z;   (* Timestamp in milliseconds (u64). *)
  content : string
}.

(** [pub enum TextChannelAction]. *)
Inductive TextChannelAction :=
| MessageCreated (msg : TextChannelMessage)
| MessageEdited.

(** [pub enum TextChannelEvent]. *)
Inductive TextChannelEvent :=
| NewMessage (msg : TextChannelMessage)
| EventMessageEdited (msg : TextChannelMessage).

(** [u64::to_be_bytes]: the [k] low bytes of [n], most significant first. *)
Fixpoint be_bytes (k : nat) (n : Z) : list Z :=
  match k with
  | O => []
  | S k' => Z.land (Z.shiftr n (8 * Z.of_nat k')) 255 :: be_bytes k' n
  end.

Definition to_be_bytes (n : Z) : list Z := be_bytes 8 n.

(** The ordering of byte-slice keys in the store ([Ord for [u8]]):
    lexicographic, a proper prefix first. *)
Fixpoint lex_le (a b : list Z) : bool :=
  match a, b with
  | [], _ => true
  | _ :: _, [] => false
  | x :: xs, y :: ys => (x <? y) || ((x =? y) && lex_le xs ys)
  end.

(** [u64 as i64]: two's-complement reinterpretation. *)
Definition u64_as_i64 (n : Z) : Z := if n <? 2 ^ 63 then n else n - 2 ^ 64.

(** [tantivy::DateTime], kept as nanoseconds since the Unix epoch. *)
Record DateTime := DateTime_ { timestamp_nanos : Z }.

(** i64 arithmetic as the release profile compiles it (overflow checks
    off): the result wraps around modulo 2^64. *)
Definition wrap_i64 (z : Z) : Z := (z + 2 ^ 63) mod 2 ^ 64 - 2 ^ 63.

(** Whether an i64 product overflows; a debug build panics there. *)
Definition i64_mul_overflows (a b : Z) : bool :=
  negb ((- 2 ^ 63 <=? a * b) && (a * b <? 2 ^ 63)).

(** [DateTime::from_timestamp_secs] ([seconds * 1_000_000_000] in i64,
    wrapping as in a release build) and [DateTime::into_timestamp_secs]. *)
Definition from_timestamp_secs (seconds : Z) : DateTime :=
  DateTime_ (wrap_i64 (seconds * 1000000000)).
Definition into_timestamp_secs (d : DateTime) : Z := timestamp_nanos d / 1000000000.

(** Field types and options of the search schema. *)
Inductive FieldType := DateField | TextField | U64Field.
Inductive DateTimePrecision := Seconds | Milliseconds | Microseconds | Nanoseconds.

Record FieldEntry := {
  field_name : string;
  field_type : FieldType;
  indexed : bool;
  stored : bool;
  fast : bool;
  precision : option DateTimePrecision
}.

Definition SCHEMA_KEY_TIMESTAMP : string := "timestamp".
Definition SCHEMA_KEY_CONTENT : string := "content".
Definition SCHEMA_KEY_AUTHOR : string := "author".

(** [text_search_schema]: fields in the order the builder adds them;
    a [Field] is the position of its entry. *)
Definition text_search_schema : list FieldEntry :=
  [ {| field_name := SCHEMA_KEY_TIMESTAMP; field_type := DateField; indexed := true;
       stored := true; fast := true; precision := Some Seconds |};
    {| field_name := SCHEMA_KEY_CONTENT; field_type := TextField; indexed := true;
       stored := true; fast := false; precision := None |};
    {| field_name := SCHEMA_KEY_AUTHOR; field_type := U64Field; indexed := true;
       stored := false; fast := true; precision := None |} ].

Definition Field := nat.

(** [Schema::get_field]. *)
Fixpoint get_field_from (i : nat) (entries : list FieldEntry) (name : string) : option Field :=
  match entries with
  | [] => None
  | e :: es => if String.eqb (field_name e) name then Some i else get_field_from (S i) es name
  end.
Definition get_field (schema : list FieldEntry) (name : string) : option Field :=
  get_field_from 0 schema name.

(** Values of a [TantivyDocument]. *)
Inductive OwnedValue := VDate (d : DateTime) | VStr (s : string) | VU64 (n : Z).

(** [TantivyDocument]: field/value pairs in insertion order. *)
Definition TantivyDocument := list (Field * OwnedValue).

(** The calls the worker makes on its collaborators; a failing insert or
    add is only logged, so the calls do not depend on their results. *)
Inductive WorkerCall :=
| KeyspaceInsert (key : list Z) (value : string)
| IndexAddDocument (doc : TantivyDocument)
| EventSend (ev : TextChannelEvent)
| Panic.

(** One iteration of the [channel_worker] loop, as a release build runs
    it ([from_timestamp_secs] wraps on overflow).  The source reads
    [msg.body], the message's text (the [content] field), and adds
    [msg.author] as a u64. *)
Definition worker_step (field_timestamp field_body field_author : Field)
  (action : TextChannelAction) : list WorkerCall :=
  match action with
  | MessageCreated msg =>
      let document : TantivyDocument :=
        [ (field_timestamp, VDate (from_timestamp_secs (u64_as_i64 (timestamp_ms msg))));
          (field_body, VStr (content msg));
          (field_author, VU64 (user_raw (author msg))) ] in
      [ KeyspaceInsert (to_be_bytes (timestamp_ms msg)) (content msg);
        IndexAddDocument document;
        EventSend (NewMessage msg) ]
  | MessageEdited => [Panic]   (* todo!() *)
  end.

(** [channel_worker]: the actions received until the queue closes; the
    task stops at the first panic. *)
Fixpoint channel_worker (field_timestamp field_body field_author : Field)
  (actions : list TextChannelAction) : list WorkerCall :=
  match actions with
  | [] => []
  | a :: rest =>
      match a with
      | MessageEdited => worker_step field_timestamp field_body field_author a
      | MessageCreated _ =>
          worker_step field_timestamp field_body field_author a ++
          channel_worker field_timestamp field_body field_author rest
      end
  end.

(** The worker as [TextChannel::new] spawns it, with the schema's fields. *)
Definition spawned_worker (actions : list TextChannelAction) : list WorkerCall :=
  match get_field text_search_schema SCHEMA_KEY_TIMESTAMP,
        get_field text_search_schema SCHEMA_KEY_CONTENT,
        get_field text_search_schema SCHEMA_KEY_AUTHOR with
  | Some ft, Some fb, Some fa => channel_worker ft fb fa actions
  | _, _, _ => [Panic]   (* unwrap() on a missing field *)
  end.

(** The same worker in a debug build: the i64 product of
    [from_timestamp_secs] is checked, so a timestamp whose nanoseconds
    overflow an i64 panics the task right after the keyspace insert. *)
Definition worker_step_checked (field_timestamp field_body field_author : Field)
  (action : TextChannelAction) : list WorkerCall :=
  match action with
  | MessageCreated msg =>
      if i64_mul_overflows (u64_as_i64 (timestamp_ms msg)) 1000000000
      then [ KeyspaceInsert (to_be_bytes (timestamp_ms msg)) (content msg); Panic ]
      else worker_step field_timestamp field_body field_author action
  | MessageEdited => [Panic]
  end.

Fixpoint channel_worker_checked (field_timestamp field_body field_author : Field)
  (actions : list TextChannelAction) : list WorkerCall :=
  match actions with
  | [] => []
  | a :: rest =>
      match a with
      | MessageEdited => worker_step_checked field_timestamp field_body field_author a
      | MessageCreated msg =>
          if i64_mul_overflows (u64_as_i64 (timestamp_ms msg)) 1000000000
          then worker_step_checked field_timestamp field_body field_author a
          else worker_step_checked field_timestamp field_body field_author a ++
               channel_worker_checked field_timestamp field_body field_author rest
      end
  end.

Definition spawned_worker_checked (actions : list TextChannelAction) : list WorkerCall :=
  match get_field text_search_schema SCHEMA_KEY_TIMESTAMP,
        get_field text_search_schema SCHEMA_KEY_CONTENT,
        get_field text_search_schema SCHEMA_KEY_AUTHOR with
  | Some ft, Some fb, Some fa => channel_worker_checked ft fb fa actions
  | _, _, _ => [Panic]
  end.

End TextChannel.

(* ------------------------------------------------------------------ *)
(** ** Identifier generator (crate snowflaked) as the services use it  *)
(* ------------------------------------------------------------------ *)

Module Snowflake.

(** The crate's 64-bit layout: 42 timestamp bits, 10 instance bits and
    12 sequence bits, most significant first. *)
Definition INSTANCE_BITS : Z := 10.
Definition SEQUENCE_BITS : Z := 12.
Definition INSTANCE_MASK : Z := Z.ones INSTANCE_BITS.
Definition SEQUENCE_MASK : Z := Z.ones SEQUENCE_BITS.

(** [u64::from_parts(timestamp, instance, sequence)]. *)
Definition from_parts (timestamp instance sequence : Z) : Z :=
  Z.lor (Z.lor (Z.shiftl timestamp (INSTANCE_BITS + SEQUENCE_BITS))
               (Z.shiftl (Z.land instance INSTANCE_MASK) SEQUENCE_BITS))
        (Z.land sequence SEQUENCE_MASK).

(** [Snowflake::instance] and [Snowflake::sequence] of a u64. *)
Definition instance (id : Z) : Z := Z.land (Z.shiftr id SEQUENCE_BITS) INSTANCE_MASK.
Definition sequence (id : Z) : Z := Z.land id SEQUENCE_MASK.

(** [snowflaked::Generator]: its instance tag and the last timestamp and
    sequence it issued. *)
Record Generator := {
  gen_instance : Z;
  last_timestamp : Z;
  last_sequence : Z
}.

(** [Generator::new(instance)]. *)
Definition Generator_new (inst : Z) : Generator :=
  {| gen_instance := inst; last_timestamp := 0; last_sequence := 0 |}.

(** [Generator::generate] at clock reading [now] (milliseconds since the
    generator's epoch): the sequence restarts when the clock advances. *)
Definition generate (g : Generator) (now : Z) : Z * Generator :=
  let seq := if now =? last_timestamp g then last_sequence g + 1 else 0 in
  (from_parts now (gen_instance g) seq,
   {| gen_instance := gen_instance g; last_timestamp := now; last_sequence := seq |}).

End Snowflake.

(* ------------------------------------------------------------------ *)
(** ** Server and channel registry: src/server/mod.rs                  *)
(* ------------------------------------------------------------------ *)

Module Server.
Import Ids Snowflake.

Inductive TextChannelError :=
| LabelRequired
| KeyspaceError
| SearchIndexPathError
| SearchIndexDirectoryError
| SearchError.

Inductive CreateChannelError :=
| PoisonedChannelLock
| CreateTextChannelError (e : TextChannelError).

(** The outcome of each storage operation [TextChannel::new] performs
    (opening the keyspace, creating the index directory, opening it,
    opening the index, creating its writer); [None] is success. *)
Record StorageEnv := {
  keyspace_open : option TextChannelError;
  index_dir_create : option TextChannelError;
  index_dir_open : option TextChannelError;
  index_open : option TextChannelError;
  index_writer_open : option TextChannelError
}.

(** The state a [TextChannel] handle exposes. *)
Record TextChannelHandle := {
  tc_id : ChannelId;
  tc_label : string;
  tc_keyspace : string
}.

Definition first_error (errs : list (option TextChannelError)) : option TextChannelError :=
  fold_right (fun e acc => match e with Some _ => e | None => acc end) None errs.

(** [TextChannel::new]: the label check, then the storage operations in
    order, each propagated with [?]. *)
Definition TextChannel_new (env : StorageEnv) (id : ChannelId) (label : string)
  : RustInt.result TextChannelHandle TextChannelError :=
  if String.eqb label EmptyString then RustInt.Err LabelRequired
  else match first_error [keyspace_open env; index_dir_create env; index_dir_open env;
                          index_open env; index_writer_open env] with
       | Some e => RustInt.Err e
       | None => RustInt.Ok {| tc_id := id; tc_label := label;
                               tc_keyspace := RustInt.u64_to_string (channel_raw id) |}
       end.

(** [HashMap::insert]. *)
Fixpoint hm_insert {V} (k : ChannelId) (v : V) (m : list (ChannelId * V)) : list (ChannelId * V) :=
  match m with
  | [] => [(k, v)]
  | (k', v') :: m' =>
      if channel_raw k =? channel_raw k' then (k, v) :: m' else (k', v') :: hm_insert k v m'
  end.

(** [pub struct Server], with the parts the registry uses; [poisoned]
    says whether the channel table's lock is poisoned. *)
Record ServerState := {
  id_generator : Generator;
  text_channel_table : list (ChannelId * TextChannelHandle);
  poisoned : bool
}.

(** [Server::new] once the database has opened. *)
Definition Server_new : ServerState :=
  {| id_generator := Generator_new 0; text_channel_table := []; poisoned := false |}.

(** [Server::create_text_channel], at clock reading [now]. *)
Definition create_text_channel (env : StorageEnv) (s : ServerState) (label : string) (now : Z)
  : ServerState * RustInt.result TextChannelHandle CreateChannelError :=
  let (raw, gen') := generate (id_generator s) now in
  let id := ChannelId_ raw in
  let s1 := {| id_generator := gen'; text_channel_table := text_channel_table s;
               poisoned := poisoned s |} in
  match TextChannel_new env id label with
  | RustInt.Err e => (s1, RustInt.Err (CreateTextChannelError e))
  | RustInt.Ok channel =>
      if poisoned s then (s1, RustInt.Err PoisonedChannelLock)
      else ({| id_generator := gen';
               text_channel_table := hm_insert id channel (text_channel_table s);
               poisoned := false |}, RustInt.Ok channel)
  end.

(** [Server::text_channels]: the handles of the table. *)
Definition text_channels (s : ServerState) : list TextChannelHandle :=
  map snd (text_channel_table s).

End Server.

(* ------------------------------------------------------------------ *)
(** ** Auth service: src/server/auth.rs                                *)
(* ------------------------------------------------------------------ *)

Module Auth.
Import Ids.

Record OauthClient := { provider_id : string; client_id : string; scopes : list string }.
Record AuthConfig := { oauth2_clients : list OauthClient }.
Record AuthService := { config : AuthConfig }.

Definition AuthService_new (c : AuthConfig) : AuthService := {| config := c |}.

(** [AuthService::validate_token]. *)
Definition validate_token (self : AuthService) (token : string) : option UserId := None.

End Auth.

(* ------------------------------------------------------------------ *)
(** ** Client sessions: src/server/client/mod.rs                       *)
(* ------------------------------------------------------------------ *)

Module Client.
Import Snowflake.

(** [v0::GatewayIdentify]. *)
Record GatewayIdentify := { token : string; client_agent : string }.

Inductive ConnectionState := Connected | Disconnected.

(** [pub struct Session]. *)
Record Session := {
  session_id : Z;
  state : ConnectionState;
  identity : GatewayIdentify;
  last_contact_s : Z
}.

Definition Session_new (id : Z) (st : ConnectionState) (ident : GatewayIdentify) : Session :=
  {| session_id := id; state := st; identity := ident; last_contact_s := 0 |}.

(** [Session::contacted] at clock reading [now] ([Utc::now().timestamp()]). *)
Definition contacted (now : Z) (s : Session) : Session :=
  {| session_id := session_id s; state := state s; identity := identity s;
     last_contact_s := now |}.

(** [pub struct ClientService]. *)
Record ClientService := {
  cs_id_generator : Generator;
  sessions : list (Z * Session)
}.

(** [ClientService::new]. *)
Definition ClientService_new : ClientService :=
  {| cs_id_generator := Generator_new 0; sessions := [] |}.

(** [ClientService::create_session] at clock reading [now]. *)
Definition create_session (cs : ClientService) (ident : GatewayIdentify) (now : Z)
  : ClientService * Session :=
  let (id, gen') := generate (cs_id_generator cs) now in
  let session := Session_new id Connected ident in
  ({| cs_id_generator := gen'; sessions := (id, session) :: sessions cs |}, session).

End Client.

(* ------------------------------------------------------------------ *)
(** ** Gateway: src/http/gateway.rs                                    *)
(* ------------------------------------------------------------------ *)

Module Gateway.
Import Client.

Inductive Encoding := Protobuf | Json.

(** [GatewayQuery]. *)
Record GatewayQuery := { version : option string; encoding : option Encoding }.

(** What [ws_handler] returns: a plain status response, or the upgrade
    whose callback runs [handle_socket] with the chosen encoding. *)
Inductive Response := StatusResponse (code : Z) | Upgrade (enc : Encoding).

Definition BAD_REQUEST : Z := 400.

(** [ws_handler]. *)
Definition ws_handler (query : GatewayQuery) : Response :=
  match version query with
  | Some v => if String.eqb v "v0" then StatusResponse BAD_REQUEST
              else Upgrade (match encoding query with Some e => e | None => Json end)
  | None => Upgrade (match encoding query with Some e => e | None => Json end)
  end.

(** [ws::Message]. *)
Inductive WsMessage :=
| WText (t : string)
| WBinary (b : list Z)
| WPing (b : list Z)
| WPong (b : list Z)
| WClose.

(** A frame read from the socket, with the clock reading at its arrival;
    [None] is a transport error ([Err] from the stream). *)
Definition Frame := (Z * option WsMessage)%type.

Section Pumps.

(** The wire decoders, which are generated code: [axum::Json::from_bytes]
    ([None] makes the [unwrap()] panic), and the JSON and Protobuf
    decoders of the client messages ([None] is a decode error). *)
Variable JsonValue ClientEvent : Type.
Variable json_from_bytes : string -> option JsonValue.
Variable deserialize_event : JsonValue -> option ClientEvent.
Variable decode_event : list Z -> option ClientEvent.
Variable deserialize_identify : JsonValue -> option GatewayIdentify.
Variable decode_identify : list Z -> option GatewayIdentify.
(** Whether the session's ingestion channel still accepts events
    (a failed [send] is [unwrap()]ed). *)
Variable ingest_open : bool.

Inductive PumpEnd := StreamClosed | PingReceived | Panicked.

Record PumpOutcome := {
  forwarded : list ClientEvent;     (* events sent to the ingestion channel *)
  final_session : Session;
  unread : list Frame;              (* frames the pump never read *)
  ended : PumpEnd
}.

Definition pump_stop (s : Session) (rest : list Frame) (e : PumpEnd) : PumpOutcome :=
  {| forwarded := []; final_session := s; unread := rest; ended := e |}.

Definition pump_forward (ev : ClientEvent) (o : PumpOutcome) : PumpOutcome :=
  {| forwarded := ev :: forwarded o; final_session := final_session o;
     unread := unread o; ended := ended o |}.

(** [task_receive]: the inbound pump. *)
Fixpoint task_receive (session : Session) (frames : list Frame) : PumpOutcome :=
  match frames with
  | [] => pump_stop session [] StreamClosed
  | (now, recv) :: rest =>
      match recv with
      | None => task_receive session rest
      | Some (WPing _) => pump_stop (contacted now session) rest PingReceived
      | Some (WText text) =>
          match json_from_bytes text with
          | None => pump_stop session rest Panicked
          | Some value =>
              match deserialize_event value with
              | None => task_receive session rest
              | Some event =>
                  if ingest_open then pump_forward event (task_receive session rest)
                  else pump_stop session rest Panicked
              end
          end
      | Some (WBinary bytes) =>
          match decode_event bytes with
          | None => task_receive session rest
          | Some event =>
              if ingest_open then pump_forward event (task_receive session rest)
              else pump_stop session rest Panicked
          end
      | Some _ => task_receive session rest
      end
  end.

Inductive IdentResult := Identified (i : GatewayIdentify) | NoIdentity | IdentPanicked.

(** [receive_identity_message]: the frames it consumed and its result. *)
Fixpoint receive_identity_message (frames : list Frame) : IdentResult * list Frame :=
  match frames with
  | [] => (NoIdentity, [])
  | (_, recv) :: rest =>
      match recv with
      | None => (NoIdentity, rest)
      | Some (WText text) =>
          match json_from_bytes text with
          | None => (IdentPanicked, rest)
          | Some value =>
              match deserialize_identify value with
              | None => receive_identity_message rest
              | Some ident => (Identified ident, rest)
              end
          end
      | Some (WBinary bytes) =>
          match decode_identify bytes with
          | None => receive_identity_message rest
          | Some ident => (Identified ident, rest)
          end
      | Some _ => receive_identity_message rest
      end
  end.

Inductive SocketEnd := IdentifyFailed | AuthFailed | Streamed (s : Session).

(** [handle_socket] up to the start of the pumps: the handshake is sent,
    the identity received, its token validated, and only then a session
    created in the client service. *)
Definition handle_socket (auth : Auth.AuthService) (clients : ClientService)
  (frames : list Frame) (now : Z) : ClientService * SocketEnd :=
  match fst (receive_identity_message frames) with
  | NoIdentity | IdentPanicked => (clients, IdentifyFailed)
  | Identified ident =>
      match Auth.validate_token auth (token ident) with
      | None => (clients, AuthFailed)
      | Some _user_id =>
          let (clients', session) := create_session clients ident now in
          (clients', Streamed session)
      end
  end.

(** A connection request: the handler's response, then the socket task
    when it upgrades. *)
Definition gateway_connection (auth : Auth.AuthService) (clients : ClientService)
  (query : GatewayQuery) (frames : list Frame) (now : Z) : ClientService * option SocketEnd :=
  match ws_handler query with
  | StatusResponse _ => (clients, None)
  | Upgrade _ =>
      let (clients', e) := handle_socket auth clients frames now in (clients', Some e)
  end.

End Pumps.

Arguments task_receive {JsonValue ClientEvent} json_from_bytes deserialize_event decode_event
  ingest_open session frames.

End Gateway.

(* ------------------------------------------------------------------ *)
(** ** Whole-message decoding: src/message.rs [decode_message]         *)
(* ------------------------------------------------------------------ *)

Module MessageContent.
Import Message.

(** [char::is_whitespace] on an ASCII character: U+0009 to U+000D and
    the space, the ASCII members of Unicode's White_Space.  Strings are
    byte strings here and the other White_Space characters (U+0085,
    U+00A0, U+3000, ...) are not recognised, so the statements below
    assume ASCII input ([ascii_only]), on which each byte is one [char]
    and the two splitters agree. *)
Definition is_whitespace (c : ascii) : bool :=
  let n := nat_of_ascii c in ((9 <=? n)%nat && (n <=? 13)%nat) || (n =? 32)%nat.

Definition is_ascii_char (c : ascii) : bool := (nat_of_ascii c <? 128)%nat.

Fixpoint ascii_only (s : string) : bool :=
  match s with EmptyString => true | String c r => is_ascii_char c && ascii_only r end.

Definition starts_non_ws (s : string) : bool :=
  match s with EmptyString => false | String c _ => negb (is_whitespace c) end.

(** [str::split_whitespace]: the maximal runs of non-whitespace
    characters, in order. *)
Fixpoint split_whitespace (s : string) : list string :=
  match s with
  | EmptyString => []
  | String c r =>
      if is_whitespace c then split_whitespace r
      else match split_whitespace r with
           | w :: ws => if starts_non_ws r then String c w :: ws
                        else String c EmptyString :: w :: ws
           | [] => [String c EmptyString]
           end
  end.

(** [decode_message]: [MessageContent(contents.split_whitespace()
    .map(decode_message_part).collect())]. *)
Definition decode_message (contents : string) : list MessageBlock :=
  map decode_message_part (split_whitespace contents).

(** The characters of [s] that are not whitespace. *)
Fixpoint remove_whitespace (s : string) : string :=
  match s with
  | EmptyString => EmptyString
  | String c r => if is_whitespace c then remove_whitespace r else String c (remove_whitespace r)
  end.

Fixpoint no_whitespace (s : string) : bool :=
  match s with EmptyString => true | String c r => negb (is_whitespace c) && no_whitespace r end.

End MessageContent.

(* ------------------------------------------------------------------ *)
(** ** The decimal value of a digit string                             *)
(* ------------------------------------------------------------------ *)

Module DigitValue.

(** The value of the decimal digits of [s] appended to [acc], in
    unbounded arithmetic. *)
Fixpoint digits_value_from (acc : Z) (s : string) : Z :=
  match s with
  | EmptyString => acc
  | String c r => digits_value_from (acc * 10 + (Z.of_nat (nat_of_ascii c) - 48)) r
  end.

Definition digits_value (s : string) : Z := digits_value_from 0 s.

End DigitValue.

(* ------------------------------------------------------------------ *)
(** ** The channel's keyspace as the worker's inserts leave it          *)
(* ------------------------------------------------------------------ *)

Module Keyspace.
Import TextChannel.

(** A fjall keyspace: byte keys to values, [insert] replacing the value
    of an existing key. *)
Definition Store := list (list Z * string).

Fixpoint store_insert (k : list Z) (v : string) (st : Store) : Store :=
  match st with
  | [] => [(k, v)]
  | (k', v') :: st' =>
      if list_eq_dec Z.eq_dec k k' then (k, v) :: st' else (k', v') :: store_insert k v st'
  end.

Fixpoint store_get (k : list Z) (st : Store) : option string :=
  match st with
  | [] => None
  | (k', v') :: st' => if list_eq_dec Z.eq_dec k k' then Some v' else store_get k st'
  end.

(** The effect of the worker's calls on the keyspace. *)
Definition apply_call (st : Store) (c : WorkerCall) : Store :=
  match c with
  | KeyspaceInsert k v => store_insert k v st
  | _ => st
  end.

Definition run_store (calls : list WorkerCall) (st : Store) : Store :=
  fold_left apply_call calls st.

(** The content of the last message stamped [t], the value the worker's
    inserts leave under [t]'s key. *)
Definition last_content (t : Z) (msgs : list TextChannelMessage) : option string :=
  fold_left (fun acc m => if timestamp_ms m =? t then Some (content m) else acc) msgs None.

(** Whether a message's timestamp, read as seconds, fits an i64 count
    of nanoseconds (the product [from_timestamp_secs] computes). *)
Definition nanos_fit (m : TextChannelMessage) : bool :=
  negb (i64_mul_overflows (u64_as_i64 (timestamp_ms m)) 1000000000).

(** The longest prefix whose elements satisfy [p], and the same prefix
    followed by the first element that does not. *)
Fixpoint take_while {A} (p : A -> bool) (l : list A) : list A :=
  match l with [] => [] | x :: xs => if p x then x :: take_while p xs else [] end.
Fixpoint take_through {A} (p : A -> bool) (l : list A) : list A :=
  match l with [] => [] | x :: xs => if p x then x :: take_through p xs else [x] end.

(** The events the worker broadcast, in order. *)
Definition sent_events (calls : list WorkerCall) : list TextChannelEvent :=
  flat_map (fun c => match c with EventSend e => [e] | _ => [] end) calls.

End Keyspace.

(* ------------------------------------------------------------------ *)
(** ** More of the client service and the auth service                 *)
(* ------------------------------------------------------------------ *)

Module ClientOps.
Import Client.

(** [ClientService::close_session]: [HashMap::remove] of the id. *)
Definition close_session (cs : ClientService) (id : Z) : ClientService :=
  {| cs_id_generator := cs_id_generator cs;
     sessions := filter (fun p => negb (fst p =? id)) (sessions cs) |}.

(** [HashMap::get] on the session table (the most recent entry for a key). *)
Definition get_session (cs : ClientService) (id : Z) : option Session :=
  option_map snd (find (fun p => fst p =? id) (sessions cs)).

End ClientOps.

(** Runs of the two services from their constructors: the server
    creating text channels, and the client service creating and closing
    sessions. *)
Module Lifecycle.
Import Snowflake Server Client ClientOps.

Definition server_run (s : ServerState) (ops : list (StorageEnv * string * Z)) : ServerState :=
  fold_left (fun s op => let '(env, label, now) := op in fst (create_text_channel env s label now))
    ops s.

Inductive SessionOp :=
| OpCreate (ident : GatewayIdentify) (now : Z)
| OpClose (id : Z).

Definition session_step (cs : ClientService) (op : SessionOp) : ClientService :=
  match op with
  | OpCreate ident now => fst (create_session cs ident now)
  | OpClose id => close_session cs id
  end.

Definition clients_run (cs : ClientService) (ops : list SessionOp) : ClientService :=
  fold_left session_step ops cs.

End Lifecycle.

Module AuthOAuth.
Import Auth.

(** [self.config.oauth2_clients.iter().find(|c| c.id == provider)]. *)
Definition find_provider (auth : AuthService) (provider : string) : option OauthClient :=
  find (fun c => String.eqb (provider_id c) provider) (oauth2_clients (config auth)).

Section OAuth.

(** [OauthClient::outh2_client] [expect]s its auth and token URLs to
    parse ([urls_valid]); the authorization URL the [oauth2] crate then
    builds (it embeds a fresh random CSRF token); and whether the token
    endpoint accepts an authorization code. *)
Variable urls_valid : OauthClient -> bool.
Variable authorize_url : OauthClient -> string.
Variable exchange_ok : OauthClient -> string -> bool.

(** A call either returns or panics (an [expect] or a [todo!]). *)
Inductive AuthOutcome := Returned (r : option string) | Panicked.

(** [AuthService::oauth2_authorize_web]; the redirect URL it parses is the
    constant ["http://localhost:8080"], which always parses. *)
Definition oauth2_authorize_web (auth : AuthService) (provider : string) : AuthOutcome :=
  match find_provider auth provider with
  | None => Returned None
  | Some p => if urls_valid p then Returned (Some (authorize_url p)) else Panicked
  end.

(** [AuthService::oauth2_code_exchange_web]: after a successful exchange
    it reaches [todo!("generate token")]. *)
Definition oauth2_code_exchange_web (auth : AuthService) (provider code : string)
  : AuthOutcome :=
  match find_provider auth provider with
  | None => Returned None
  | Some p =>
      if urls_valid p then (if exchange_ok p code then Panicked else Returned None)
      else Panicked
  end.

End OAuth.

End AuthOAuth.

(* ------------------------------------------------------------------ *)
(** ** The outbound pump: src/http/gateway.rs [task_send]              *)
(* ------------------------------------------------------------------ *)

Module GatewaySend.
Import Gateway.

Section Send.

(** The server events, their Protobuf encoding ([None] is an encode
    error) and their JSON text ([serde_json::to_string] is unwrapped);
    [socket_open] says whether sends succeed (a failed send is
    unwrapped). *)
Variable ServerEvent : Type.
Variable encode_pb : ServerEvent -> option (list Z).
Variable to_json : ServerEvent -> string.
Variable socket_open : bool.

(** What [sub.recv()] yields: an event, or an error (lagged or closed),
    which the loop logs and skips. *)
Inductive RecvResult := Recv (e : ServerEvent) | RecvError.

Inductive SendEnd := Pending | EncodeFailed | SendPanicked.

(** [task_send] over the results of successive [recv()] calls: the
    frames it sent and how it stopped ([Pending]: still waiting). *)
Fixpoint task_send (enc : Encoding) (rs : list RecvResult) : list WsMessage * SendEnd :=
  match rs with
  | [] => ([], Pending)
  | RecvError :: rest => task_send enc rest
  | Recv event :: rest =>
      let msg := match enc with
                 | Protobuf => option_map WBinary (encode_pb event)
                 | Json => Some (WText (to_json event))
                 end in
      match msg with
      | None => ([], EncodeFailed)
      | Some m =>
          if socket_open then let (ms, e) := task_send enc rest in (m :: ms, e)
          else ([], SendPanicked)
      end
  end.

End Send.

End GatewaySend.

(* ------------------------------------------------------------------ *)
(** ** Frame classifications used to state the pumps' behaviour        *)
(* ------------------------------------------------------------------ *)

Module GatewayView.
Import Client Gateway GatewaySend.

Section View.
Variable JsonValue ClientEvent : Type.
Variable json_from_bytes : string -> option JsonValue.
Variable deserialize_event : JsonValue -> option ClientEvent.
Variable decode_event : list Z -> option ClientEvent.
Variable deserialize_identify : JsonValue -> option GatewayIdentify.
Variable decode_identify : list Z -> option GatewayIdentify.

(** A frame on which [task_receive] neither stops on a ping nor panics
    on malformed JSON. *)
Definition receive_quiet (f : Frame) : bool :=
  match snd f with
  | Some (WPing _) => false
  | Some (WText text) => match json_from_bytes text with Some _ => true | None => false end
  | _ => true
  end.

(** The client event a frame carries, if it decodes to one. *)
Definition frame_event (f : Frame) : option ClientEvent :=
  match snd f with
  | Some (WText text) =>
      match json_from_bytes text with Some v => deserialize_event v | None => None end
  | Some (WBinary bytes) => decode_event bytes
  | _ => None
  end.

(** The identity a frame carries, if it decodes to one. *)
Definition frame_identity (f : Frame) : option GatewayIdentify :=
  match snd f with
  | Some (WText text) =>
      match json_from_bytes text with Some v => deserialize_identify v | None => None end
  | Some (WBinary bytes) => decode_identify bytes
  | _ => None
  end.

(** A frame [receive_identity_message] skips: it arrived, and it is a
    control frame or a well-formed message that is not an identity. *)
Definition identify_skipped (f : Frame) : bool :=
  match snd f with
  | None => false
  | Some (WText text) =>
      match json_from_bytes text with
      | Some v => match deserialize_identify v with Some _ => false | None => true end
      | None => false
      end
  | Some (WBinary bytes) => match decode_identify bytes with Some _ => false | None => true end
  | Some _ => true
  end.

End View.

Arguments receive_quiet {JsonValue} json_from_bytes f.
Arguments frame_event {JsonValue ClientEvent} json_from_bytes deserialize_event decode_event f.
Arguments frame_identity {JsonValue} json_from_bytes deserialize_identify decode_identify f.
Arguments identify_skipped {JsonValue} json_from_bytes deserialize_identify decode_identify f.

(** The events [recv()] delivered, errors dropped. *)
Definition received_events {E : Type} (rs : list (RecvResult E)) : list E :=
  flat_map (fun r => match r with Recv _ e => [e] | RecvError _ => [] end) rs.

End GatewayView.

(* ================================================================== *)
(** * Proofs *)
(* ================================================================== *)

Module IntFacts.
Import RustInt.


Lemma append_assoc (a b c : string) : ((a ++ b) ++ c = a ++ (b ++ c))%string.
Proof. induction a as [|x a IH]; simpl; [reflexivity | now rewrite IH]. Qed.

Lemma append_nil_r (a : string) : (a ++ EmptyString)%string = a.
Proof. induction a as [|x a IH]; simpl; [reflexivity | now rewrite IH]. Qed.

Lemma digit_cases (d : Z) : 0 <= d < 10 ->
  d = 0 \/ d = 1 \/ d = 2 \/ d = 3 \/ d = 4 \/ d = 5 \/ d = 6 \/ d = 7 \/ d = 8 \/ d = 9.
Proof. lia. Qed.

Ltac digit_enum d :=
  let H := fresh in
  match goal with Hd : 0 <= d < 10 |- _ =>
    destruct (digit_cases d Hd) as [H|[H|[H|[H|[H|[H|[H|[H|[H|H]]]]]]]]]; subst d
  end.

Lemma to_digit_char (d : Z) : 0 <= d < 10 -> to_digit (digit_char d) = Some d.
Proof. intros Hd. digit_enum d; reflexivity. Qed.

(** A digit is none of the characters that open a sign or a mention prefix. *)
Lemma digit_char_not_special (d : Z) : 0 <= d < 10 ->
  Ascii.eqb (digit_char d) "+" = false /\ Ascii.eqb (digit_char d) "-" = false /\
  Ascii.eqb "&" (digit_char d) = false.
Proof. intros Hd. digit_enum d; repeat split; reflexivity. Qed.

Lemma digits_loop_app lo hi p acc (s1 s2 : string) :
  digits_loop lo hi p acc (s1 ++ s2)%string =
  match digits_loop lo hi p acc s1 with
  | Ok v => digits_loop lo hi p v s2
  | Err e => Err e
  end.
Proof.
  revert acc. induction s1 as [|c s1 IH]; intros acc; simpl; [reflexivity|].
  destruct (to_digit c); [|reflexivity].
  destruct p.
  - destruct (acc * 10 <=? hi); [|reflexivity].
    destruct (acc * 10 + z <=? hi); [apply IH | reflexivity].
  - destruct (lo <=? acc * 10); [|reflexivity].
    destruct (lo <=? acc * 10 - z); [apply IH | reflexivity].
Qed.

(** The formatted digits start with a digit character. *)
Lemma fmt_digits_head (f : nat) (n : Z) : (0 < f)%nat -> 0 <= n ->
  exists d rest, 0 <= d < 10 /\ fmt_digits f n = String (digit_char d) rest.
Proof.
  revert n. induction f as [|f IH]; intros n Hf Hn; [lia|].
  simpl. destruct (n <? 10) eqn:E.
  - apply Z.ltb_lt in E. exists n, EmptyString. split; [lia | reflexivity].
  - apply Z.ltb_ge in E. destruct f as [|f'].
    + exists (n mod 10), EmptyString. split; [apply Z.mod_pos_bound; lia | reflexivity].
    + destruct (IH (n / 10)) as (d & rest & Hd & Heq); [lia | apply Z.div_pos; lia |].
      exists d, (rest ++ String (digit_char (n mod 10)) EmptyString)%string.
      split; [exact Hd|]. now rewrite Heq.
Qed.

(** Parsing the formatted digits towards the positive side gives [n] back. *)
Lemma digits_loop_fmt_pos (f : nat) lo hi (n : Z) :
  (0 < f)%nat -> 0 <= n < 10 ^ Z.of_nat f -> n <= hi ->
  digits_loop lo hi true 0 (fmt_digits f n) = Ok n.
Proof.
  revert n. induction f as [|f IH]; intros n Hf Hn Hhi; [lia|].
  simpl fmt_digits. destruct (n <? 10) eqn:E.
  - apply Z.ltb_lt in E. cbn [digits_loop]. rewrite to_digit_char by lia.
    replace (0 * 10 <=? hi) with true by (symmetry; apply Z.leb_le; lia).
    replace (0 * 10 + n <=? hi) with true by (symmetry; apply Z.leb_le; lia).
    reflexivity.
  - apply Z.ltb_ge in E.
    assert (Hf' : (0 < f)%nat).
    { destruct f; [|lia]. simpl in Hn. lia. }
    assert (Hq : 0 <= n / 10 < 10 ^ Z.of_nat f).
    { split; [apply Z.div_pos; lia|].
      apply Z.div_lt_upper_bound; [lia|].
      rewrite Nat2Z.inj_succ, Z.pow_succ_r in Hn by lia. lia. }
    assert (Hle : n / 10 <= n) by (apply Z.div_le_upper_bound; lia).
    rewrite digits_loop_app, IH by (try assumption; lia).
    cbn [digits_loop]. rewrite to_digit_char by (apply Z.mod_pos_bound; lia).
    pose proof (Z.div_mod n 10 ltac:(lia)) as Hdm.
    pose proof (Z.mod_pos_bound n 10 ltac:(lia)) as Hm.
    replace (n / 10 * 10 <=? hi) with true by (symmetry; apply Z.leb_le; lia).
    replace (n / 10 * 10 + n mod 10 <=? hi) with true by (symmetry; apply Z.leb_le; lia).
    f_equal; lia.
Qed.

(** Parsing the formatted digits towards the negative side gives [- n]. *)
Lemma digits_loop_fmt_neg (f : nat) lo hi (n : Z) :
  (0 < f)%nat -> 0 <= n < 10 ^ Z.of_nat f -> lo <= - n ->
  digits_loop lo hi false 0 (fmt_digits f n) = Ok (- n).
Proof.
  revert n. induction f as [|f IH]; intros n Hf Hn Hlo; [lia|].
  simpl fmt_digits. destruct (n <? 10) eqn:E.
  - apply Z.ltb_lt in E. cbn [digits_loop]. rewrite to_digit_char by lia.
    replace (lo <=? 0 * 10) with true by (symmetry; apply Z.leb_le; lia).
    replace (lo <=? 0 * 10 - n) with true by (symmetry; apply Z.leb_le; lia).
    f_equal; lia.
  - apply Z.ltb_ge in E.
    assert (Hf' : (0 < f)%nat).
    { destruct f; [|lia]. simpl in Hn. lia. }
    assert (Hq : 0 <= n / 10 < 10 ^ Z.of_nat f).
    { split; [apply Z.div_pos; lia|].
      apply Z.div_lt_upper_bound; [lia|].
      rewrite Nat2Z.inj_succ, Z.pow_succ_r in Hn by lia. lia. }
    assert (Hle : n / 10 <= n) by (apply Z.div_le_upper_bound; lia).
    rewrite digits_loop_app, IH by (try assumption; lia).
    cbn [digits_loop]. rewrite to_digit_char by (apply Z.mod_pos_bound; lia).
    pose proof (Z.div_mod n 10 ltac:(lia)) as Hdm.
    pose proof (Z.mod_pos_bound n 10 ltac:(lia)) as Hm.
    replace (lo <=? - (n / 10) * 10) with true by (symmetry; apply Z.leb_le; lia).
    replace (lo <=? - (n / 10) * 10 - n mod 10) with true by (symmetry; apply Z.leb_le; lia).
    f_equal; lia.
Qed.

Lemma pow_10_20 : 10 ^ Z.of_nat 20 = 100000000000000000000.
Proof. reflexivity. Qed.

Lemma u64_bound_digits (n : Z) : 0 <= n <= U64_MAX -> 0 <= n < 10 ^ Z.of_nat 20.
Proof. unfold U64_MAX. rewrite pow_10_20. lia. Qed.

(** [u64::from_str] inverts [u64::to_string] on the whole range of [u64]. *)
Lemma u64_from_to_string (n : Z) : 0 <= n <= U64_MAX ->
  u64_from_str (u64_to_string n) = Ok n.
Proof.
  intros Hn. unfold u64_from_str, u64_to_string.
  destruct (fmt_digits_head 20 n) as (d & rest & Hd & Heq); [lia | lia |].
  destruct (digit_char_not_special d Hd) as (Hp & Hm & _).
  pose proof (digits_loop_fmt_pos 20 0 U64_MAX n ltac:(lia) (u64_bound_digits n Hn)
                ltac:(lia)) as Hl.
  rewrite Heq in *. unfold from_str_radix. rewrite Hp, Hm. cbn [orb andb]. exact Hl.
Qed.

(** [i64::from_str] inverts [i64::to_string] on the whole range of [i64]. *)
Lemma i64_from_to_string (n : Z) : I64_MIN <= n <= I64_MAX ->
  i64_from_str (i64_to_string n) = Ok n.
Proof.
  intros Hn. unfold i64_from_str, i64_to_string, I64_MIN, I64_MAX in *.
  assert (H63 : 2 ^ 63 = 9223372036854775808) by reflexivity.
  rewrite H63 in *.
  destruct (n <? 0) eqn:E.
  - apply Z.ltb_lt in E.
    destruct (fmt_digits_head 20 (- n)) as (d & rest & Hd & Heq); [lia | lia |].
    pose proof (digits_loop_fmt_neg 20 (- 9223372036854775808) (9223372036854775808 - 1) (- n) ltac:(lia)
                  ltac:(rewrite pow_10_20; lia) ltac:(lia)) as Hl.
    rewrite Z.opp_involutive in Hl.
    rewrite Heq in *. unfold from_str_radix. cbn [orb andb Ascii.eqb String.eqb]. exact Hl.
  - apply Z.ltb_ge in E.
    destruct (fmt_digits_head 20 n) as (d & rest & Hd & Heq); [lia | lia |].
    destruct (digit_char_not_special d Hd) as (Hp & Hm & _).
    pose proof (digits_loop_fmt_pos 20 (- 9223372036854775808) (9223372036854775808 - 1) n ltac:(lia)
                  ltac:(rewrite pow_10_20; lia) ltac:(lia)) as Hl.
    rewrite Heq in *. unfold from_str_radix. rewrite Hp, Hm. cbn [orb andb]. exact Hl.
Qed.

End IntFacts.

Module MessageFacts.
Import RustInt Ids Message IntFacts.

Local Open Scope string_scope.

Lemma strip_prefix_app (p s : string) : strip_prefix p (p ++ s) = Some s.
Proof. induction p as [|c p IH]; simpl; [reflexivity|]. now rewrite Ascii.eqb_refl. Qed.

Lemma strip_prefix_some (p s r : string) : strip_prefix p s = Some r -> s = p ++ r.
Proof.
  revert s. induction p as [|c p IH]; intros s H; simpl in *.
  - congruence.
  - destruct s as [|c' s]; [discriminate|].
    destruct (Ascii.eqb_spec c c'); [subst | discriminate].
    now rewrite (IH s H).
Qed.

Lemma append_gt_nonempty (x : string) : String.eqb (x ++ ">") EmptyString = false.
Proof. destruct x; reflexivity. Qed.

Lemma strip_suffix_gt (x : string) : strip_suffix ">" (x ++ ">") = Some x.
Proof.
  induction x as [|c x IH]; [reflexivity|].
  simpl append. unfold strip_suffix; fold strip_suffix.
  replace (String.eqb (String c (x ++ ">")) ">") with false.
  - now rewrite IH.
  - cbn [String.eqb]. destruct (Ascii.eqb c ">"); [|reflexivity].
    now rewrite append_gt_nonempty.
Qed.

Lemma strip_suffix_some (suf s r : string) : strip_suffix suf s = Some r -> s = r ++ suf.
Proof.
  revert r. induction s as [|c s IH]; intros r H; unfold strip_suffix in H; fold strip_suffix in H.
  - destruct (String.eqb_spec EmptyString suf); [|discriminate].
    inversion H; now subst.
  - destruct (String.eqb_spec (String c s) suf) as [E|E].
    + inversion H; now subst.
    + destruct (strip_suffix suf s) as [r'|] eqn:Hr; [|discriminate].
      inversion H; subst. simpl. now rewrite (IH r' eq_refl).
Qed.

Lemma strip_lt (x : string) : strip_prefix "<" (String "<" x) = Some x.
Proof. reflexivity. Qed.

(** The five exits of [decode_message_part] on a bracketed token. *)
Lemma decode_case_role (inner rest : string) :
  strip_prefix ROLE_BLOCK_PREFIX inner = Some rest ->
  decode_message_part (String "<" (inner ++ ">")) =
  match role_from_str rest with
  | Err _ => Text (String "<" (inner ++ ">"))
  | Ok r => Role r
  end.
Proof. intros H. unfold decode_message_part. now rewrite strip_lt, strip_suffix_gt, H. Qed.

Lemma decode_case_user (inner rest : string) :
  strip_prefix ROLE_BLOCK_PREFIX inner = None ->
  strip_prefix USER_BLOCK_PREFIX inner = Some rest ->
  decode_message_part (String "<" (inner ++ ">")) =
  match user_from_str rest with
  | Err _ => Text (String "<" (inner ++ ">"))
  | Ok u => User u
  end.
Proof. intros H1 H2. unfold decode_message_part. now rewrite strip_lt, strip_suffix_gt, H1, H2. Qed.

Lemma decode_case_channel (inner rest : string) :
  strip_prefix ROLE_BLOCK_PREFIX inner = None ->
  strip_prefix USER_BLOCK_PREFIX inner = None ->
  strip_prefix CHANNEL_BLOCK_PREFIX inner = Some rest ->
  decode_message_part (String "<" (inner ++ ">")) =
  match user_from_str rest with
  | Err _ => Text (String "<" (inner ++ ">"))
  | Ok u => User u
  end.
Proof.
  intros H1 H2 H3. unfold decode_message_part. now rewrite strip_lt, strip_suffix_gt, H1, H2, H3.
Qed.

Lemma decode_case_timestamp (inner rest : string) :
  strip_prefix ROLE_BLOCK_PREFIX inner = None ->
  strip_prefix USER_BLOCK_PREFIX inner = None ->
  strip_prefix CHANNEL_BLOCK_PREFIX inner = None ->
  strip_prefix TIMESTAMP_BLOCK_PREFIX inner = Some rest ->
  decode_message_part (String "<" (inner ++ ">")) =
  match i64_from_str rest with
  | Err _ => Text (String "<" (inner ++ ">"))
  | Ok t => Timestamp t
  end.
Proof.
  intros H1 H2 H3 H4. unfold decode_message_part.
  now rewrite strip_lt, strip_suffix_gt, H1, H2, H3, H4.
Qed.

Lemma decode_case_none (inner : string) :
  strip_prefix ROLE_BLOCK_PREFIX inner = None ->
  strip_prefix USER_BLOCK_PREFIX inner = None ->
  strip_prefix CHANNEL_BLOCK_PREFIX inner = None ->
  strip_prefix TIMESTAMP_BLOCK_PREFIX inner = None ->
  decode_message_part (String "<" (inner ++ ">")) = Text (String "<" (inner ++ ">")).
Proof.
  intros H1 H2 H3 H4. unfold decode_message_part.
  now rewrite strip_lt, strip_suffix_gt, H1, H2, H3, H4.
Qed.

(** The formatters produce [<], a body, then [>]. *)
Lemma format_shape (p d : string) : "<" ++ p ++ d ++ ">" = String "<" ((p ++ d) ++ ">").
Proof. simpl. now rewrite append_assoc. Qed.

Lemma display_u64_head (n : Z) : 0 <= n ->
  exists c rest, u64_to_string n = String c rest /\ Ascii.eqb "&" c = false.
Proof.
  intros Hn. destruct (fmt_digits_head 20 n) as (d & rest & Hd & Heq); [lia | exact Hn |].
  exists (digit_char d), rest. split; [exact Heq|]. apply (digit_char_not_special d Hd).
Qed.

(** Role, user and timestamp mentions decode to the block they format. *)
Lemma decode_format_role (r : RoleId) : u64_ok (role_raw r) ->
  decode_message_part (format_role r) = Role r.
Proof.
  intros Hr. unfold format_role. rewrite format_shape.
  rewrite (decode_case_role _ (display_role r)) by apply strip_prefix_app.
  unfold role_from_str, display_role. rewrite u64_from_to_string by exact Hr.
  now destruct r.
Qed.

Lemma decode_format_user (u : UserId) : u64_ok (user_raw u) ->
  decode_message_part (format_user u) = User u.
Proof.
  intros Hu. unfold format_user. rewrite format_shape.
  destruct (display_u64_head (user_raw u)) as (c & rest & Heq & Hc); [apply Hu|].
  rewrite (decode_case_user _ (display_user u)).
  - unfold user_from_str, display_user. rewrite u64_from_to_string by exact Hu.
    now destruct u.
  - unfold display_user, ROLE_BLOCK_PREFIX, USER_BLOCK_PREFIX. rewrite Heq.
    cbn [append strip_prefix]. now rewrite Hc.
  - apply strip_prefix_app.
Qed.

Lemma decode_format_timestamp (t : Z) : I64_MIN <= t <= I64_MAX ->
  decode_message_part (format_timestamp t) = Timestamp t.
Proof.
  intros Ht. unfold format_timestamp. rewrite format_shape.
  rewrite (decode_case_timestamp _ (i64_to_string t)) by reflexivity.
  now rewrite i64_from_to_string.
Qed.

(** A channel mention decodes to a [User] block carrying the channel's
    number, never to a [Channel] block. *)
Lemma decode_format_channel (c : ChannelId) : u64_ok (channel_raw c) ->
  decode_message_part (format_channel c) = User (UserId_ (channel_raw c)).
Proof.
  intros Hc. unfold format_channel. rewrite format_shape.
  rewrite (decode_case_channel _ (display_channel c)) by reflexivity.
  unfold user_from_str, display_channel. now rewrite u64_from_to_string.
Qed.

Lemma digits_loop_ok_digits lo hi p acc (s : string) v :
  digits_loop lo hi p acc s = Ok v -> all_digits s = true.
Proof.
  revert acc. induction s as [|c s IH]; intros acc H; [reflexivity|].
  simpl in H. unfold to_digit in H. simpl.
  unfold is_ascii_digit.
  destruct ((48 <=? nat_of_ascii c)%nat && (nat_of_ascii c <=? 57)%nat); [|discriminate].
  simpl. destruct p.
  - destruct (acc * 10 <=? hi)%Z; [|discriminate].
    destruct (acc * 10 + (Z.of_nat (nat_of_ascii c) - 48) <=? hi)%Z; [|discriminate].
    eapply IH; exact H.
  - destruct (lo <=? acc * 10)%Z; [|discriminate].
    destruct (lo <=? acc * 10 - (Z.of_nat (nat_of_ascii c) - 48))%Z; [|discriminate].
    eapply IH; exact H.
Qed.

(** Whatever [from_str_radix] accepts is an integer literal. *)
Lemma from_str_radix_ok_numeric signed lo hi (s : string) v :
  from_str_radix signed lo hi s = Ok v -> is_numeric s = true.
Proof.
  destruct s as [|c rest]; [discriminate|].
  unfold from_str_radix, is_numeric.
  destruct (Ascii.eqb c "+") eqn:Ep, (Ascii.eqb c "-") eqn:Em; cbn [orb andb].
  - destruct rest as [|c' rest]; [discriminate|].
    intros H. exact (digits_loop_ok_digits _ _ _ _ _ _ H).
  - destruct rest as [|c' rest]; [discriminate|].
    intros H. exact (digits_loop_ok_digits _ _ _ _ _ _ H).
  - apply Ascii.eqb_eq in Em. subst c.
    destruct rest as [|c' rest]; [discriminate|]. destruct signed; cbn [andb].
    + intros H. exact (digits_loop_ok_digits _ _ _ _ _ _ H).
    + intros H. apply digits_loop_ok_digits in H. discriminate.
  - rewrite andb_false_r. intros H. apply digits_loop_ok_digits in H. exact H.
Qed.

Lemma u64_from_str_not_numeric (s : string) :
  is_numeric s = false -> exists e, u64_from_str s = Err e.
Proof.
  intros H. destruct (u64_from_str s) as [v|e] eqn:E; [|now exists e].
  apply from_str_radix_ok_numeric in E. congruence.
Qed.

Lemma i64_from_str_not_numeric (s : string) :
  is_numeric s = false -> exists e, i64_from_str s = Err e.
Proof.
  intros H. destruct (i64_from_str s) as [v|e] eqn:E; [|now exists e].
  apply from_str_radix_ok_numeric in E. congruence.
Qed.

(** Tokens without the angle brackets are returned as text. *)
Lemma decode_unbracketed (tok : string) :
  (forall inner, tok <> String "<" (inner ++ ">")) ->
  decode_message_part tok = Text tok.
Proof.
  intros H. unfold decode_message_part.
  destruct (strip_prefix "<" tok) as [x|] eqn:E1; [|reflexivity].
  destruct (strip_suffix ">" x) as [y|] eqn:E2; [|reflexivity].
  exfalso. apply (H y).
  apply strip_prefix_some in E1. apply strip_suffix_some in E2. now subst.
Qed.

End MessageFacts.

Module ChannelFacts.
Import Ids TextChannel.

(** Each byte of the encoding only reads the bits below [8 k]. *)
Lemma be_bytes_mod (k : nat) (t : Z) :
  be_bytes k t = be_bytes k (t mod 2 ^ (8 * Z.of_nat k)).
Proof.
  assert (Hgen : forall j, (j <= k)%nat -> be_bytes j t = be_bytes j (t mod 2 ^ (8 * Z.of_nat k))).
  { induction j as [|j IH]; intros Hj; [reflexivity|].
    cbn [be_bytes]. rewrite IH by lia. f_equal.
    apply Z.bits_inj'. intros b Hb.
    rewrite !Z.land_spec, !Z.shiftr_spec by lia.
    destruct (Z.lt_ge_cases b 8) as [Hb8|Hb8].
    - rewrite Z.mod_pow2_bits_low by lia. reflexivity.
    - replace (Z.testbit 255 b) with false; [now rewrite !andb_false_r|].
      change 255 with (Z.ones 8). symmetry. apply Z.ones_spec_high. lia. }
  apply Hgen. lia.
Qed.

(** The leading byte of a [k+1]-byte value is its quotient by [2^(8k)]. *)
Lemma be_head (k : nat) (t : Z) : 0 <= t < 2 ^ (8 * Z.of_nat (S k)) ->
  Z.land (Z.shiftr t (8 * Z.of_nat k)) 255 = t / 2 ^ (8 * Z.of_nat k).
Proof.
  intros Ht. change 255 with (Z.ones 8).
  rewrite Z.land_ones, Z.shiftr_div_pow2 by lia.
  apply Z.mod_small. split; [apply Z.div_pos; lia|].
  apply Z.div_lt_upper_bound; [lia|].
  replace (2 ^ (8 * Z.of_nat k) * 2 ^ 8) with (2 ^ (8 * Z.of_nat (S k))); [lia|].
  rewrite <- Z.pow_add_r by lia. f_equal. lia.
Qed.

(** Big-endian encodings of equal width compare like the numbers. *)
Lemma be_bytes_order (k : nat) (t1 t2 : Z) :
  0 <= t1 < 2 ^ (8 * Z.of_nat k) -> 0 <= t2 < 2 ^ (8 * Z.of_nat k) ->
  (t1 <= t2 <-> lex_le (be_bytes k t1) (be_bytes k t2) = true).
Proof.
  revert t1 t2. induction k as [|k IH]; intros t1 t2 H1 H2.
  - simpl in *. split; [reflexivity | lia].
  - cbn [be_bytes lex_le]. rewrite !be_head by assumption.
    rewrite (be_bytes_mod k t1), (be_bytes_mod k t2).
    set (P := 2 ^ (8 * Z.of_nat k)) in *.
    assert (HP : 0 < P) by (apply Z.pow_pos_nonneg; lia).
    assert (HPS : 2 ^ (8 * Z.of_nat (S k)) = P * 256).
    { unfold P. rewrite <- (Z.pow_add_r 2 _ 8) by lia. change 256 with (2 ^ 8).
      f_equal. lia. }
    rewrite HPS in *.
    pose proof (Z.div_mod t1 P ltac:(lia)) as D1.
    pose proof (Z.div_mod t2 P ltac:(lia)) as D2.
    pose proof (Z.mod_pos_bound t1 P HP) as M1.
    pose proof (Z.mod_pos_bound t2 P HP) as M2.
    specialize (IH (t1 mod P) (t2 mod P) M1 M2).
    set (h1 := t1 / P) in *. set (h2 := t2 / P) in *.
    set (r1 := t1 mod P) in *. set (r2 := t2 mod P) in *.
    destruct (Z.ltb_spec h1 h2) as [Hlt|Hge]; cbn [orb].
    + split; [reflexivity|]. intros _. nia.
    + destruct (Z.eqb_spec h1 h2) as [Heq|Hne]; cbn [andb].
      * rewrite <- IH. nia.
      * split; [intros; nia | discriminate].
Qed.

(** Keys of the channel store: [u64::to_be_bytes] orders like the u64. *)
Lemma to_be_bytes_order (t1 t2 : Z) :
  u64_ok t1 -> u64_ok t2 -> (t1 <= t2 <-> lex_le (to_be_bytes t1) (to_be_bytes t2) = true).
Proof.
  unfold u64_ok, RustInt.U64_MAX, to_be_bytes. intros H1 H2.
  apply be_bytes_order; change (8 * Z.of_nat 8) with 64; lia.
Qed.

End ChannelFacts.

(* ------------------------------------------------------------------ *)
(** ** Claims about the message codec and identifiers                  *)
(* ------------------------------------------------------------------ *)

Module CodecClaims.
Import RustInt Ids Message IntFacts MessageFacts.

Local Open Scope string_scope.

(** C1: the four mention round trips [decode_message_part(format_x(id)) ==
    MessageBlock::X(id)]. They hold for roles, users and timestamps, but a
    channel mention [<#5>] decodes to [MessageBlock::User(5)], not to
    [MessageBlock::Channel(5)]: the channel branch of the decoder wraps the
    parsed identifier in the [User] variant. *)
Theorem channel_mention_decodes_as_user :
  decode_message_part (format_channel (ChannelId_ 5)) = User (UserId_ 5) /\
  decode_message_part (format_channel (ChannelId_ 5)) <> Channel (ChannelId_ 5).
Proof.
  rewrite decode_format_channel by (unfold u64_ok, U64_MAX; cbn [channel_raw]; lia).
  split; [reflexivity | discriminate].
Qed.

(** C6: every malformed token (no angle brackets, no mention prefix, or a
    payload after the first matching prefix that is not an integer
    literal) decodes to [MessageBlock::Text] of the original token. *)
Theorem decode_malformed_is_text (tok : string) :
  malformed tok -> decode_message_part tok = Text tok.
Proof.
  intros [H | (inner & -> & H)]; [now apply decode_unbracketed|].
  unfold recognized_prefix, mention_prefixes in H. cbn [first_prefix] in H.
  unfold starts_with in H.
  destruct (strip_prefix ROLE_BLOCK_PREFIX inner) as [r1|] eqn:E1.
  { destruct H as [H | (p & rest & Hp & -> & Hn)]; [discriminate|].
    inversion Hp; subst p. rewrite strip_prefix_app in E1. inversion E1; subst r1.
    rewrite (decode_case_role _ rest) by apply strip_prefix_app.
    destruct (u64_from_str_not_numeric rest Hn) as (e & He).
    unfold role_from_str. now rewrite He. }
  destruct (strip_prefix USER_BLOCK_PREFIX inner) as [r2|] eqn:E2.
  { destruct H as [H | (p & rest & Hp & -> & Hn)]; [discriminate|].
    inversion Hp; subst p. rewrite strip_prefix_app in E2. inversion E2; subst r2.
    rewrite (decode_case_user _ rest E1) by apply strip_prefix_app.
    destruct (u64_from_str_not_numeric rest Hn) as (e & He).
    unfold user_from_str. now rewrite He. }
  destruct (strip_prefix CHANNEL_BLOCK_PREFIX inner) as [r3|] eqn:E3.
  { destruct H as [H | (p & rest & Hp & -> & Hn)]; [discriminate|].
    inversion Hp; subst p. rewrite strip_prefix_app in E3. inversion E3; subst r3.
    rewrite (decode_case_channel _ rest E1 E2) by apply strip_prefix_app.
    destruct (u64_from_str_not_numeric rest Hn) as (e & He).
    unfold user_from_str. now rewrite He. }
  destruct (strip_prefix TIMESTAMP_BLOCK_PREFIX inner) as [r4|] eqn:E4.
  { destruct H as [H | (p & rest & Hp & -> & Hn)]; [discriminate|].
    inversion Hp; subst p. rewrite strip_prefix_app in E4. inversion E4; subst r4.
    rewrite (decode_case_timestamp _ rest E1 E2 E3) by apply strip_prefix_app.
    destruct (i64_from_str_not_numeric rest Hn) as (e & He).
    now rewrite He. }
  now apply decode_case_none.
Qed.

Lemma decode_malformed_is_text_witness :
  malformed "<@abc>" /\ decode_message_part "<@abc>" = Text "<@abc>".
Proof.
  assert (H : malformed "<@abc>").
  { right. exists "@abc". split; [reflexivity|].
    right. exists "@", "abc". repeat split; reflexivity. }
  split; [exact H | apply (decode_malformed_is_text "<@abc>" H)].
Defined.

(** C9: channel and user identifiers round-trip through their decimal
    display: [ChannelId::from_str(&c.to_string()) == Ok(c)] and likewise
    for [UserId], for every 64-bit value. *)
Theorem id_display_from_str_roundtrip (c : ChannelId) (u : UserId) :
  u64_ok (channel_raw c) -> u64_ok (user_raw u) ->
  channel_from_str (display_channel c) = Ok c /\ user_from_str (display_user u) = Ok u.
Proof.
  intros Hc Hu. unfold channel_from_str, user_from_str, display_channel, display_user.
  rewrite !u64_from_to_string by assumption.
  destruct c, u. split; reflexivity.
Qed.

Lemma id_display_from_str_roundtrip_witness :
  u64_ok 18446744073709551615 /\ u64_ok 42 /\
  channel_from_str (display_channel (ChannelId_ 18446744073709551615))
    = Ok (ChannelId_ 18446744073709551615) /\
  user_from_str (display_user (UserId_ 42)) = Ok (UserId_ 42).
Proof.
  assert (H1 : u64_ok 18446744073709551615) by (unfold u64_ok, U64_MAX; lia).
  assert (H2 : u64_ok 42) by (unfold u64_ok, U64_MAX; lia).
  destruct (id_display_from_str_roundtrip (ChannelId_ 18446744073709551615) (UserId_ 42) H1 H2)
    as [E1 E2].
  split; [exact H1 | split; [exact H2 | split; [exact E1 | exact E2]]].
Defined.

End CodecClaims.

Module SnowflakeFacts.
Import Snowflake.

(** The instance component of an identifier is the generator's tag. *)
Lemma instance_from_parts (t i q : Z) :
  instance (from_parts t i q) = Z.land i INSTANCE_MASK.
Proof.
  unfold instance, from_parts, INSTANCE_MASK, SEQUENCE_MASK, INSTANCE_BITS, SEQUENCE_BITS.
  apply Z.bits_inj'. intros b Hb.
  rewrite Z.land_spec, Z.shiftr_spec, !Z.lor_spec by lia.
  destruct (Z.lt_ge_cases b 10) as [Hlt|Hge].
  - rewrite (Z.shiftl_spec_low t (10 + 12) (b + 12)) by lia.
    rewrite Z.shiftl_spec by lia. replace (b + 12 - 12) with b by lia.
    rewrite (Z.land_spec q (Z.ones 12) (b + 12)).
    rewrite (Z.ones_spec_high 12 (b + 12)) by lia.
    rewrite andb_false_r, orb_false_l, orb_false_r.
    rewrite (Z.ones_spec_low 10 b) by lia. now rewrite andb_true_r.
  - rewrite (Z.land_spec i), (Z.ones_spec_high 10 b) by lia.
    now rewrite !andb_false_r.
Qed.

Lemma generate_instance (g : Generator) (now : Z) :
  instance (fst (generate g now)) = Z.land (gen_instance g) INSTANCE_MASK.
Proof. unfold generate. simpl. apply instance_from_parts. Qed.

End SnowflakeFacts.

Module GatewayFacts.
Import Client Gateway.

(** Frames before a ping that leave the pump running do not change the
    session; the ping then updates it and ends the pump. *)
Lemma task_receive_ping_after {J E : Type} jfb de dec ingest (sess : Session)
  (pre : list Frame) (now : Z) (p : list Z) (post : list Frame) :
  ended E (task_receive (JsonValue:=J) jfb de dec ingest sess pre) = StreamClosed ->
  let o := task_receive jfb de dec ingest sess (pre ++ (now, Some (WPing p)) :: post) in
  ended E o = PingReceived /\ unread E o = post /\
  final_session E o = contacted now sess /\
  forwarded E o = forwarded E (task_receive jfb de dec ingest sess pre).
Proof.
  induction pre as [|[t recv] pre IH]; intros H; simpl.
  - repeat split; reflexivity.
  - destruct recv as [m|]; [|apply IH; exact H].
    destruct m as [text|bytes|bytes|bytes|]; simpl in H |- *.
    + destruct (jfb text) as [v|]; [|discriminate].
      destruct (de v) as [ev|]; [|apply IH; exact H].
      destruct ingest; [|discriminate].
      destruct (IH H) as (H1 & H2 & H3 & H4). simpl. repeat split; try assumption.
      now rewrite H4.
    + destruct (dec bytes) as [ev|]; [|apply IH; exact H].
      destruct ingest; [|discriminate].
      destruct (IH H) as (H1 & H2 & H3 & H4). simpl. repeat split; try assumption.
      now rewrite H4.
    + discriminate.
    + apply IH; exact H.
    + apply IH; exact H.
Qed.

End GatewayFacts.

(* ------------------------------------------------------------------ *)
(** ** Claims about channels, identifiers and the gateway              *)
Module LifecycleFacts.
Import Ids Snowflake SnowflakeFacts Server Client ClientOps Lifecycle.

Lemma hm_insert_cases {V} (k k' : ChannelId) (v v' : V) (m : list (ChannelId * V)) :
  In (k', v') (hm_insert k v m) -> (k', v') = (k, v) \/ In (k', v') m.
Proof.
  induction m as [|[k1 v1] m IH]; simpl.
  - intros [E|[]]. now left.
  - destruct (channel_raw k =? channel_raw k1); simpl.
    + intros [E|H]; [now left | right; now right].
    + intros [E|H]; [right; now left|]. destruct (IH H) as [E|H']; [now left | right; now right].
Qed.

Lemma TextChannel_new_id (env : StorageEnv) (id : ChannelId) (label : string) ch :
  TextChannel_new env id label = RustInt.Ok ch -> tc_id ch = id.
Proof.
  unfold TextChannel_new. destruct (String.eqb label EmptyString); [discriminate|].
  destruct (first_error _); [discriminate|]. intros H. now injection H as <-.
Qed.

Lemma generate_keeps_instance (g : Generator) (now : Z) :
  gen_instance (snd (generate g now)) = gen_instance g.
Proof. reflexivity. Qed.

Lemma generate_instance_zero (g : Generator) (now : Z) :
  gen_instance g = 0 -> instance (fst (generate g now)) = 0.
Proof. intros H. rewrite generate_instance, H. reflexivity. Qed.

(** Along any run of the server, its generator keeps instance tag 0 and
    every registered channel carries an id with instance component 0. *)
Lemma server_run_instance (ops : list (StorageEnv * string * Z)) (s : ServerState) :
  gen_instance (id_generator s) = 0 ->
  (forall k ch, In (k, ch) (text_channel_table s) -> instance (channel_raw (tc_id ch)) = 0) ->
  gen_instance (id_generator (server_run s ops)) = 0 /\
  (forall k ch, In (k, ch) (text_channel_table (server_run s ops)) ->
     instance (channel_raw (tc_id ch)) = 0).
Proof.
  revert s. induction ops as [|[[env label] now] ops IH]; intros s Hg Ht; [split; assumption|].
  unfold server_run. cbn [fold_left]. apply IH.
  - unfold create_text_channel.
    destruct (generate (id_generator s) now) as [raw gen'] eqn:E.
    assert (Hg' : gen_instance gen' = 0).
    { change gen' with (snd (raw, gen')). rewrite <- E. exact Hg. }
    destruct (TextChannel_new env (ChannelId_ raw) label); [destruct (poisoned s)|]; exact Hg'.
  - unfold create_text_channel.
    destruct (generate (id_generator s) now) as [raw gen'] eqn:E.
    assert (Hr : instance raw = 0).
    { change raw with (fst (raw, gen')). rewrite <- E. now apply generate_instance_zero. }
    destruct (TextChannel_new env (ChannelId_ raw) label) as [ch|err] eqn:Hn;
      [destruct (poisoned s)|]; cbn [fst text_channel_table]; try exact Ht.
    intros k ch' Hin. apply hm_insert_cases in Hin as [Eq|Hin]; [|exact (Ht _ _ Hin)].
    injection Eq as -> ->. apply TextChannel_new_id in Hn. rewrite Hn. exact Hr.
Qed.

(** Along any run of the client service, its generator keeps instance
    tag 0 and every session in the table has an id with instance
    component 0. *)
Lemma clients_run_instance (ops : list SessionOp) (cs : ClientService) :
  gen_instance (cs_id_generator cs) = 0 ->
  (forall id sess, In (id, sess) (sessions cs) -> instance id = 0 /\ instance (session_id sess) = 0) ->
  gen_instance (cs_id_generator (clients_run cs ops)) = 0 /\
  (forall id sess, In (id, sess) (sessions (clients_run cs ops)) ->
     instance id = 0 /\ instance (session_id sess) = 0).
Proof.
  revert cs. induction ops as [|op ops IH]; intros cs Hg Ht; [split; assumption|].
  unfold clients_run. cbn [fold_left]. apply IH.
  - destruct op as [ident now|id]; cbn [session_step]; [|exact Hg].
    unfold create_session. destruct (generate (cs_id_generator cs) now) as [raw gen'] eqn:E.
    change gen' with (snd (raw, gen')). rewrite <- E. exact Hg.
  - destruct op as [ident now|id]; cbn [session_step].
    + unfold create_session. destruct (generate (cs_id_generator cs) now) as [raw gen'] eqn:E.
      assert (Hr : instance raw = 0).
      { change raw with (fst (raw, gen')). rewrite <- E. now apply generate_instance_zero. }
      cbn [fst sessions]. intros id sess [Eq|Hin]; [|exact (Ht _ _ Hin)].
      injection Eq as <- <-. split; exact Hr.
    + unfold close_session. cbn [sessions]. intros id' sess Hin.
      apply filter_In in Hin as [Hin _]. exact (Ht _ _ Hin).
Qed.

End LifecycleFacts.

(* ------------------------------------------------------------------ *)

Module ServerClaims.
Import Ids TextChannel ChannelFacts Snowflake SnowflakeFacts Server Client Gateway GatewayFacts.

Local Open Scope string_scope.

(** C2: an unsupported version is rejected before the upgrade and a
    supported one is upgraded. The handler does the opposite for the
    protocol the server implements ([proto::v0]): [version=v0] gets
    [400 Bad Request], while [version=v1] is upgraded. *)
Theorem ws_handler_version_check_inverted :
  ws_handler {| version := Some "v0"; encoding := None |} = StatusResponse BAD_REQUEST /\
  ws_handler {| version := Some "v1"; encoding := None |} = Upgrade Json.
Proof. split; reflexivity. Qed.

(** C3: the search document of a created message carries the message's
    time in seconds. The worker passes [timestamp_ms] itself to
    [DateTime::from_timestamp_secs], so a message created at 1000 ms is
    indexed at 1000 s, not at 1 s. *)
Theorem created_document_timestamp_is_ms_as_secs :
  let msg := {| author := UserId_ 42; timestamp_ms := 1000; content := "hello" |} in
  spawned_worker [MessageCreated msg] =
    [ KeyspaceInsert (to_be_bytes 1000) "hello";
      IndexAddDocument [ (0%nat, VDate (from_timestamp_secs 1000));
                         (1%nat, VStr "hello");
                         (2%nat, VU64 42) ];
      EventSend (NewMessage msg) ] /\
  into_timestamp_secs (from_timestamp_secs 1000) = 1000 /\
  into_timestamp_secs (from_timestamp_secs 1000) <> timestamp_ms msg / 1000.
Proof. intros msg. split; [reflexivity | split; [reflexivity | cbn; discriminate]]. Qed.

(** C4 (counterexample): the channel generator of [Server::new] and the
    session generator of [ClientService::new] have the same instance tag,
    and at the same clock reading they issue the same identifier. *)
Lemma generators_share_instance_tag :
  gen_instance (id_generator Server_new) = gen_instance (cs_id_generator ClientService_new) /\
  fst (generate (id_generator Server_new) 5) = fst (generate (cs_id_generator ClientService_new) 5).
Proof. split; reflexivity. Qed.

(** C4 (as the code has it): [Server::new] and [ClientService::new]
    both construct their generator with instance tag 0.  Along any run
    of either service the tag stays 0, so every channel id and every
    session id the services generate, and every id in their tables, has
    instance component 0; and the two generators issue the same
    identifier at the same clock reading and sequence. *)
Theorem channel_and_session_ids_have_instance_zero
  (server_ops : list (StorageEnv * string * Z)) (client_ops : list Lifecycle.SessionOp) (now : Z) :
  let s := Lifecycle.server_run Server_new server_ops in
  let cs := Lifecycle.clients_run ClientService_new client_ops in
  gen_instance (id_generator Server_new) = 0 /\
  gen_instance (cs_id_generator ClientService_new) = 0 /\
  instance (fst (generate (id_generator s) now)) = 0 /\
  instance (fst (generate (cs_id_generator cs) now)) = 0 /\
  (forall ch, In ch (text_channels s) -> instance (channel_raw (tc_id ch)) = 0) /\
  (forall id sess, In (id, sess) (sessions cs) -> instance id = 0 /\ instance (session_id sess) = 0) /\
  (forall t q, from_parts t (gen_instance (id_generator s)) q =
               from_parts t (gen_instance (cs_id_generator cs)) q) /\
  (last_timestamp (id_generator s) = last_timestamp (cs_id_generator cs) ->
   last_sequence (id_generator s) = last_sequence (cs_id_generator cs) ->
   fst (generate (id_generator s) now) = fst (generate (cs_id_generator cs) now)).
Proof.
  intros s cs.
  destruct (LifecycleFacts.server_run_instance server_ops Server_new eq_refl
              (fun k ch H => match H with end)) as [Hs Hst].
  destruct (LifecycleFacts.clients_run_instance client_ops ClientService_new eq_refl
              (fun id sess H => match H with end)) as [Hc Hct].
  fold s in Hs, Hst. fold cs in Hc, Hct.
  split; [reflexivity|]. split; [reflexivity|].
  split; [now apply LifecycleFacts.generate_instance_zero|].
  split; [now apply LifecycleFacts.generate_instance_zero|].
  split.
  { intros ch Hin. unfold text_channels in Hin. apply in_map_iff in Hin as [[k ch'] [<- Hin]].
    exact (Hst _ _ Hin). }
  split; [exact Hct|].
  split; [intros t q; now rewrite Hs, Hc|].
  intros Ht Hq. unfold generate. cbn [fst]. now rewrite Hs, Hc, Ht, Hq.
Qed.

Definition demo_server_ops : list (StorageEnv * string * Z) :=
  [ ({| keyspace_open := None; index_dir_create := None; index_dir_open := None;
        index_open := None; index_writer_open := None |}, "general"%string, 3) ].

Definition demo_client_ops : list Lifecycle.SessionOp :=
  [ Lifecycle.OpCreate {| token := "t"; client_agent := "web" |}%string 3 ].

Lemma channel_and_session_ids_have_instance_zero_witness :
  last_timestamp (id_generator (Lifecycle.server_run Server_new demo_server_ops)) =
    last_timestamp (cs_id_generator (Lifecycle.clients_run ClientService_new demo_client_ops)) /\
  last_sequence (id_generator (Lifecycle.server_run Server_new demo_server_ops)) =
    last_sequence (cs_id_generator (Lifecycle.clients_run ClientService_new demo_client_ops)) /\
  fst (generate (id_generator (Lifecycle.server_run Server_new demo_server_ops)) 3) =
    fst (generate (cs_id_generator (Lifecycle.clients_run ClientService_new demo_client_ops)) 3).
Proof.
  assert (H1 : last_timestamp (id_generator (Lifecycle.server_run Server_new demo_server_ops)) =
    last_timestamp (cs_id_generator (Lifecycle.clients_run ClientService_new demo_client_ops)))
    by reflexivity.
  assert (H2 : last_sequence (id_generator (Lifecycle.server_run Server_new demo_server_ops)) =
    last_sequence (cs_id_generator (Lifecycle.clients_run ClientService_new demo_client_ops)))
    by reflexivity.
  split; [exact H1|]. split; [exact H2|].
  exact (proj2 (proj2 (proj2 (proj2 (proj2 (proj2 (proj2
           (channel_and_session_ids_have_instance_zero demo_server_ops demo_client_ops 3))))))) H1 H2).
Defined.

(** C5: creating a channel with an empty label fails with [LabelRequired]
    and leaves the channel table, and so the channel listing, unchanged. *)
Theorem create_text_channel_empty_label (env : StorageEnv) (s : ServerState) (now : Z) :
  snd (create_text_channel env s "" now) = RustInt.Err (CreateTextChannelError LabelRequired) /\
  text_channel_table (fst (create_text_channel env s "" now)) = text_channel_table s /\
  text_channels (fst (create_text_channel env s "" now)) = text_channels s.
Proof.
  unfold create_text_channel, text_channels.
  destruct (generate (id_generator s) now) as [raw gen'].
  simpl. repeat split; reflexivity.
Qed.

(** C7: a created message is first stored under the big-endian bytes of
    its millisecond timestamp with its text as the value, and this key
    order is the order of the timestamps. *)
Theorem created_message_key_is_ordered_be (ft fb fa : Field) (msg : TextChannelMessage)
  (rest : list TextChannelAction) (t1 t2 : Z) :
  u64_ok t1 -> u64_ok t2 ->
  (exists calls, channel_worker ft fb fa (MessageCreated msg :: rest) =
                 KeyspaceInsert (to_be_bytes (timestamp_ms msg)) (content msg) :: calls) /\
  (t1 <= t2 <-> lex_le (to_be_bytes t1) (to_be_bytes t2) = true).
Proof.
  intros H1 H2. split.
  - eexists. reflexivity.
  - now apply to_be_bytes_order.
Qed.

Lemma created_message_key_is_ordered_be_witness :
  u64_ok 999 /\ u64_ok 1000 /\
  (exists calls, channel_worker 0%nat 1%nat 2%nat
     [MessageCreated {| author := UserId_ 42; timestamp_ms := 1000; content := "hello" |}] =
     KeyspaceInsert (to_be_bytes 1000) "hello" :: calls) /\
  (999 <= 1000 <-> lex_le (to_be_bytes 999) (to_be_bytes 1000) = true).
Proof.
  assert (H1 : u64_ok 999) by (unfold u64_ok, RustInt.U64_MAX; lia).
  assert (H2 : u64_ok 1000) by (unfold u64_ok, RustInt.U64_MAX; lia).
  destruct (created_message_key_is_ordered_be 0%nat 1%nat 2%nat
              {| author := UserId_ 42; timestamp_ms := 1000; content := "hello" |} [] 999 1000
              H1 H2) as [A B].
  split; [exact H1 | split; [exact H2 | split; [exact A | exact B]]].
Defined.

(** C8: when the inbound pump, still running after the frames [pre],
    reads a ping, it records the contact time in the session and stops:
    the frames after the ping are never read, and the ping is not
    forwarded (only the events of [pre] are). *)
Theorem task_receive_stops_at_ping {J E : Type} (jfb : string -> option J)
  (de : J -> option E) (dec : list Z -> option E) (ingest : bool) (sess : Session)
  (pre : list Frame) (now : Z) (p : list Z) (post : list Frame) :
  ended E (task_receive jfb de dec ingest sess pre) = StreamClosed ->
  ended E (task_receive jfb de dec ingest sess (pre ++ (now, Some (WPing p)) :: post))
    = PingReceived /\
  unread E (task_receive jfb de dec ingest sess (pre ++ (now, Some (WPing p)) :: post)) = post /\
  last_contact_s (final_session E
    (task_receive jfb de dec ingest sess (pre ++ (now, Some (WPing p)) :: post))) = now /\
  forwarded E (task_receive jfb de dec ingest sess (pre ++ (now, Some (WPing p)) :: post))
    = forwarded E (task_receive jfb de dec ingest sess pre).
Proof.
  intros H. destruct (task_receive_ping_after jfb de dec ingest sess pre now p post H)
    as (H1 & H2 & H3 & H4).
  repeat split; try assumption. now rewrite H3.
Qed.

Definition demo_session : Session :=
  Session_new 7 Connected {| token := "t"; client_agent := "a" |}.

Lemma task_receive_stops_at_ping_witness :
  let jfb := fun (_ : string) => Some tt in
  let de := fun (_ : unit) => Some 1%nat in
  let dec := fun (_ : list Z) => Some 2%nat in
  let pre := [(10, Some (WText "{}")); (11, Some (WPong [])); (12, Some (WBinary [1]))] in
  let post := [(30, Some (WText "{}"))] in
  ended nat (task_receive jfb de dec true demo_session pre) = StreamClosed /\
  ended nat (task_receive jfb de dec true demo_session (pre ++ (20, Some (WPing [])) :: post))
    = PingReceived /\
  unread nat (task_receive jfb de dec true demo_session (pre ++ (20, Some (WPing [])) :: post))
    = post /\
  last_contact_s (final_session nat
    (task_receive jfb de dec true demo_session (pre ++ (20, Some (WPing [])) :: post))) = 20 /\
  forwarded nat (task_receive jfb de dec true demo_session (pre ++ (20, Some (WPing [])) :: post))
    = forwarded nat (task_receive jfb de dec true demo_session pre).
Proof.
  intros jfb de dec pre post.
  assert (H : ended nat (task_receive jfb de dec true demo_session pre) = StreamClosed)
    by reflexivity.
  split; [exact H | exact (task_receive_stops_at_ping jfb de dec true demo_session pre 20 [] post H)].
Defined.

(** C10: [validate_token] accepts no token, so every gateway connection
    ends before a session is created: the client service is unchanged
    and the socket never reaches the streaming state. *)
Theorem validate_token_rejects_all {J : Type} (auth : Auth.AuthService) (tok : string)
  (jfb : string -> option J) (di : J -> option GatewayIdentify)
  (dci : list Z -> option GatewayIdentify) (clients : ClientService)
  (frames : list Frame) (now : Z) :
  Auth.validate_token auth tok = None /\
  fst (handle_socket J jfb di dci auth clients frames now) = clients /\
  (forall s, snd (handle_socket J jfb di dci auth clients frames now) <> Streamed s).
Proof.
  unfold handle_socket.
  destruct (fst (receive_identity_message J jfb di dci frames)) as [ident| |];
    simpl; repeat split; try reflexivity; intros s; discriminate.
Qed.

End ServerClaims.

(* ------------------------------------------------------------------ *)
(** ** Whole-message decoding                                          *)
(* ------------------------------------------------------------------ *)

Module ContentFacts.
Import RustInt Ids Message MessageContent IntFacts MessageFacts.

Lemma concat_empty_cons (w : string) (ws : list string) :
  String.concat "" (w :: ws) = (w ++ String.concat "" ws)%string.
Proof.
  destruct ws as [|x xs]; simpl; [now rewrite append_nil_r | reflexivity].
Qed.

(** A whitespace-free word followed by nothing or by whitespace is one
    token. *)
Lemma split_word_app (w rest : string) :
  w <> EmptyString -> no_whitespace w = true -> starts_non_ws rest = false ->
  split_whitespace (w ++ rest) = w :: split_whitespace rest.
Proof.
  induction w as [|c w IH]; intros Hne Hw Hr; [congruence|].
  simpl in Hw. apply andb_prop in Hw as [Hc Hw]. apply negb_true_iff in Hc.
  cbn [append split_whitespace]. rewrite Hc.
  destruct w as [|c' w'].
  - cbn [append]. destruct (split_whitespace rest); [reflexivity|]. now rewrite Hr.
  - rewrite IH by (discriminate || assumption).
    simpl in Hw. apply andb_prop in Hw as [Hc' _]. cbn [append starts_non_ws]. now rewrite Hc'.
Qed.

Lemma split_whitespace_tokens_ok (s : string) :
  Forall (fun w => w <> EmptyString /\ no_whitespace w = true) (split_whitespace s).
Proof.
  induction s as [|c r IH]; simpl; [constructor|].
  destruct (is_whitespace c) eqn:Hc; [exact IH|].
  destruct (split_whitespace r) as [|w ws] eqn:Hs.
  - constructor; [split; [discriminate | simpl; now rewrite Hc] | constructor].
  - inversion IH as [|? ? [Hw1 Hw2] Hws]; subst.
    destruct (starts_non_ws r).
    + constructor; [split; [discriminate | simpl; now rewrite Hc, Hw2] | exact Hws].
    + constructor; [split; [discriminate | simpl; now rewrite Hc] | constructor; auto].
Qed.

Lemma split_whitespace_concat (s : string) :
  String.concat "" (split_whitespace s) = remove_whitespace s.
Proof.
  induction s as [|c r IH]; simpl; [reflexivity|].
  destruct (is_whitespace c) eqn:Hc; [exact IH|].
  destruct (split_whitespace r) as [|w ws] eqn:Hs.
  - simpl in IH. now rewrite <- IH.
  - rewrite <- IH. destruct (starts_non_ws r).
    + rewrite !concat_empty_cons. reflexivity.
    + rewrite concat_empty_cons. reflexivity.
Qed.

(** X1. [decode_message] on words separated by single spaces decodes
    each word on its own, in order: [split_whitespace] gives back the
    words. *)
Theorem decode_message_words (ws : list string) :
  forallb (fun w => ascii_only w && negb (String.eqb w EmptyString) && no_whitespace w) ws = true ->
  split_whitespace (String.concat " " ws) = ws /\
  decode_message (String.concat " " ws) = map decode_message_part ws.
Proof.
  intros H.
  assert (Hs : split_whitespace (String.concat " " ws) = ws).
  { induction ws as [|w ws IH]; [reflexivity|].
    simpl in H. apply andb_prop in H as [Hw Hws]. apply andb_prop in Hw as [Hw Hnw].
    apply andb_prop in Hw as [_ Hne].
    apply negb_true_iff, String.eqb_neq in Hne.
    destruct ws as [|x xs].
    - simpl. rewrite <- (append_nil_r w). rewrite split_word_app by auto.
      now rewrite append_nil_r.
    - change (String.concat " " (w :: x :: xs))
        with (w ++ String " " (String.concat " " (x :: xs)))%string.
      rewrite split_word_app by auto. cbn [split_whitespace]. f_equal.
      apply IH. exact Hws. }
  split; [exact Hs|]. unfold decode_message. now rewrite Hs.
Qed.

Lemma decode_message_words_witness :
  forallb (fun w => ascii_only w && negb (String.eqb w EmptyString) && no_whitespace w)
    ["<@7>"; "hi"; "<@&3>"]%string = true /\
  decode_message (String.concat " " ["<@7>"; "hi"; "<@&3>"]%string) =
    map decode_message_part ["<@7>"; "hi"; "<@&3>"]%string.
Proof.
  split; [reflexivity|].
  apply (decode_message_words ["<@7>"; "hi"; "<@&3>"]%string). reflexivity.
Defined.

(** X2. The tokens [decode_message] decodes are non-empty, contain no
    whitespace, and together are exactly the input's non-whitespace
    characters, in order: one block per token, nothing dropped. *)
Theorem decode_message_tokens (s : string) :
  ascii_only s = true ->
  Forall (fun w => w <> EmptyString /\ no_whitespace w = true) (split_whitespace s) /\
  String.concat "" (split_whitespace s) = remove_whitespace s /\
  List.length (decode_message s) = List.length (split_whitespace s).
Proof.
  intros _. split; [apply split_whitespace_tokens_ok|].
  split; [apply split_whitespace_concat|].
  unfold decode_message. apply length_map.
Qed.

Lemma decode_message_tokens_witness :
  ascii_only "  hi <@7>   x"%string = true /\
  Forall (fun w => w <> EmptyString /\ no_whitespace w = true)
    (split_whitespace "  hi <@7>   x"%string) /\
  String.concat "" (split_whitespace "  hi <@7>   x"%string) =
    remove_whitespace "  hi <@7>   x"%string /\
  List.length (decode_message "  hi <@7>   x"%string) =
    List.length (split_whitespace "  hi <@7>   x"%string).
Proof.
  split; [reflexivity|].
  apply (decode_message_tokens "  hi <@7>   x"%string). reflexivity.
Defined.

(** X3. Role, user and timestamp mentions decode back to what was
    formatted. *)
Theorem mention_format_decode_roundtrip (r : RoleId) (u : UserId) (t : Z) :
  u64_ok (role_raw r) -> u64_ok (user_raw u) -> I64_MIN <= t <= I64_MAX ->
  decode_message_part (format_role r) = Role r /\
  decode_message_part (format_user u) = User u /\
  decode_message_part (format_timestamp t) = Timestamp t.
Proof.
  intros Hr Hu Ht. split; [|split].
  - now apply decode_format_role.
  - now apply decode_format_user.
  - now apply decode_format_timestamp.
Qed.

Lemma mention_format_decode_roundtrip_witness :
  u64_ok 42 /\ u64_ok 7 /\ I64_MIN <= -5 <= I64_MAX /\
  decode_message_part (format_role (RoleId_ 42)) = Role (RoleId_ 42) /\
  decode_message_part (format_user (UserId_ 7)) = User (UserId_ 7) /\
  decode_message_part (format_timestamp (-5)) = Timestamp (-5).
Proof.
  assert (H1 : u64_ok 42) by (unfold u64_ok, U64_MAX; lia).
  assert (H2 : u64_ok 7) by (unfold u64_ok, U64_MAX; lia).
  assert (H3 : I64_MIN <= -5 <= I64_MAX) by (unfold I64_MIN, I64_MAX; lia).
  split; [exact H1|]. split; [exact H2|]. split; [exact H3|].
  apply (mention_format_decode_roundtrip (RoleId_ 42) (UserId_ 7) (-5) H1 H2 H3).
Defined.

End ContentFacts.

(* ------------------------------------------------------------------ *)
(** ** Integer parsing: the bounds the ids inherit                      *)
(* ------------------------------------------------------------------ *)

Module ParseFacts.
Import RustInt Ids Message DigitValue.

Lemma digits_value_from_ge (acc : Z) (s : string) :
  0 <= acc -> all_digits s = true -> acc <= digits_value_from acc s.
Proof.
  revert acc. induction s as [|c s IH]; intros acc Hacc Hd; [simpl; lia|].
  simpl in Hd. apply andb_prop in Hd as [Hc Hd]. unfold is_ascii_digit in Hc.
  apply andb_prop in Hc as [H1 H2]. apply Nat.leb_le in H1, H2.
  cbn [digits_value_from].
  assert (Hn : 0 <= acc * 10 + (Z.of_nat (nat_of_ascii c) - 48)) by lia.
  specialize (IH _ Hn Hd). lia.
Qed.

(** On a digit string, the positive digit loop either returns the
    string's value or reports an overflow past [hi]. *)
Lemma digits_loop_value lo hi (acc : Z) (s : string) :
  0 <= acc <= hi -> all_digits s = true ->
  digits_loop lo hi true acc s =
  if digits_value_from acc s <=? hi then Ok (digits_value_from acc s) else perr PosOverflow.
Proof.
  revert acc. induction s as [|c s IH]; intros acc Hacc Hd.
  - simpl. destruct (acc <=? hi) eqn:E; [reflexivity|]. apply Z.leb_gt in E. lia.
  - simpl in Hd. apply andb_prop in Hd as [Hc Hd]. unfold is_ascii_digit in Hc.
    cbn [digits_loop digits_value_from]. unfold to_digit. rewrite Hc.
    apply andb_prop in Hc as [H1 H2]. apply Nat.leb_le in H1, H2.
    set (x := Z.of_nat (nat_of_ascii c) - 48).
    assert (Hx : 0 <= x <= 9) by (unfold x; lia).
    assert (Hge : acc * 10 + x <= digits_value_from (acc * 10 + x) s)
      by (apply digits_value_from_ge; [lia | exact Hd]).
    destruct (acc * 10 <=? hi) eqn:E1.
    + destruct (acc * 10 + x <=? hi) eqn:E2.
      * apply Z.leb_le in E2. apply IH; [lia | exact Hd].
      * apply Z.leb_gt in E2.
        destruct (digits_value_from (acc * 10 + x) s <=? hi) eqn:E3; [|reflexivity].
        apply Z.leb_le in E3. lia.
    + apply Z.leb_gt in E1.
      destruct (digits_value_from (acc * 10 + x) s <=? hi) eqn:E3; [|reflexivity].
      apply Z.leb_le in E3. lia.
Qed.

Lemma digit_not_sign (c : ascii) :
  is_ascii_digit c = true -> Ascii.eqb c "+" = false /\ Ascii.eqb c "-" = false.
Proof.
  intros H. split.
  - destruct (Ascii.eqb c "+") eqn:E; [|reflexivity].
    apply Ascii.eqb_eq in E. subst c. discriminate.
  - destruct (Ascii.eqb c "-") eqn:E; [|reflexivity].
    apply Ascii.eqb_eq in E. subst c. discriminate.
Qed.

Lemma u64_from_str_digits (s : string) :
  some_digits s = true ->
  u64_from_str s =
  if digits_value s <=? U64_MAX then Ok (digits_value s) else perr PosOverflow.
Proof.
  destruct s as [|c r]; [discriminate|]. intros H.
  unfold some_digits in H. assert (H' := H). simpl in H'.
  apply andb_prop in H' as [Hc _].
  destruct (digit_not_sign c Hc) as [Hp Hm].
  unfold u64_from_str, from_str_radix. rewrite Hp, Hm. cbn [orb andb].
  apply digits_loop_value; [unfold U64_MAX; lia | exact H].
Qed.

(** X4. A non-empty string of decimal digits parses as a channel, user
    or role id exactly when its value fits a u64, to the id of that
    value (leading zeros allowed); a longer or larger one is rejected
    with [PosOverflow], never wrapped. *)
Theorem id_from_str_digits (s : string) :
  some_digits s = true ->
  channel_from_str s = (if digits_value s <=? U64_MAX then Ok (ChannelId_ (digits_value s))
                        else Err (ParseIntError_ PosOverflow)) /\
  user_from_str s = (if digits_value s <=? U64_MAX then Ok (UserId_ (digits_value s))
                     else Err (ParseIntError_ PosOverflow)) /\
  role_from_str s = (if digits_value s <=? U64_MAX then Ok (RoleId_ (digits_value s))
                     else Err (ParseIntError_ PosOverflow)).
Proof.
  intros H. unfold channel_from_str, user_from_str, role_from_str.
  rewrite (u64_from_str_digits s H).
  destruct (digits_value s <=? U64_MAX); repeat split.
Qed.

Lemma id_from_str_digits_witness :
  some_digits "18446744073709551616" = true /\
  channel_from_str "18446744073709551616" = Err (ParseIntError_ PosOverflow) /\
  user_from_str "007" = Ok (UserId_ 7).
Proof.
  split; [reflexivity|]. split.
  - rewrite (proj1 (id_from_str_digits "18446744073709551616" eq_refl)). reflexivity.
  - rewrite (proj1 (proj2 (id_from_str_digits "007" eq_refl))). reflexivity.
Defined.

(** X5. A leading minus sign is an invalid digit for every id type,
    whatever follows it. *)
Theorem id_from_str_rejects_minus (rest : string) :
  channel_from_str (String "-" rest) = Err (ParseIntError_ InvalidDigit) /\
  user_from_str (String "-" rest) = Err (ParseIntError_ InvalidDigit) /\
  role_from_str (String "-" rest) = Err (ParseIntError_ InvalidDigit).
Proof.
  assert (H : u64_from_str (String "-" rest) = perr InvalidDigit).
  { unfold u64_from_str, from_str_radix. cbn [Ascii.eqb orb andb].
    destruct (String.eqb rest EmptyString); reflexivity. }
  unfold channel_from_str, user_from_str, role_from_str. rewrite H.
  repeat split.
Qed.

End ParseFacts.

(* ------------------------------------------------------------------ *)
(** ** The channel worker's effects                                    *)
(* ------------------------------------------------------------------ *)

Module WorkerFacts.
Import Ids TextChannel Keyspace ChannelFacts.

(** The schema declares the three fields the worker looks up, so the
    spawned worker runs with fields 0, 1 and 2 and never hits the
    [unwrap()] on a missing field; likewise in a debug build. *)
Lemma spawned_worker_fields (actions : list TextChannelAction) :
  spawned_worker actions = channel_worker 0%nat 1%nat 2%nat actions.
Proof. reflexivity. Qed.

Lemma spawned_worker_checked_fields (actions : list TextChannelAction) :
  spawned_worker_checked actions = channel_worker_checked 0%nat 1%nat 2%nat actions.
Proof. reflexivity. Qed.

Lemma channel_worker_created ft fb fa (msgs : list TextChannelMessage) :
  channel_worker ft fb fa (map MessageCreated msgs) =
  flat_map (fun m => worker_step ft fb fa (MessageCreated m)) msgs.
Proof.
  induction msgs as [|m msgs IH]; [reflexivity|]. simpl. now rewrite IH.
Qed.

Lemma channel_worker_app_created ft fb fa (pre : list TextChannelMessage) rest :
  channel_worker ft fb fa (map MessageCreated pre ++ rest) =
  channel_worker ft fb fa (map MessageCreated pre) ++ channel_worker ft fb fa rest.
Proof.
  induction pre as [|m pre IH]; [reflexivity|]. cbn [map List.app channel_worker].
  rewrite IH. apply app_assoc.
Qed.

(** In a debug build the worker runs as in a release build up to the
    first message whose timestamp overflows, and stops there. *)
Lemma channel_worker_checked_app_created ft fb fa (pre : list TextChannelMessage) rest :
  channel_worker_checked ft fb fa (map MessageCreated pre ++ rest) =
  channel_worker_checked ft fb fa (map MessageCreated pre) ++
  (if forallb nanos_fit pre then channel_worker_checked ft fb fa rest else []).
Proof.
  induction pre as [|m pre IH]; [reflexivity|]. cbn [map List.app channel_worker_checked forallb].
  unfold nanos_fit at 1.
  destruct (i64_mul_overflows (u64_as_i64 (timestamp_ms m)) 1000000000); cbn [negb andb].
  - symmetry. apply app_nil_r.
  - rewrite IH. apply app_assoc.
Qed.

Lemma channel_worker_checked_fit ft fb fa (msgs : list TextChannelMessage) :
  forallb nanos_fit msgs = true ->
  channel_worker_checked ft fb fa (map MessageCreated msgs) =
  channel_worker ft fb fa (map MessageCreated msgs).
Proof.
  induction msgs as [|m msgs IH]; intros H; [reflexivity|].
  cbn [forallb] in H. apply andb_prop in H as [Hm H]. unfold nanos_fit in Hm.
  apply negb_true_iff in Hm. cbn [map channel_worker_checked channel_worker].
  rewrite Hm. unfold worker_step_checked. rewrite Hm. now rewrite IH.
Qed.

Lemma sent_events_app (a b : list WorkerCall) :
  sent_events (a ++ b) = sent_events a ++ sent_events b.
Proof. unfold sent_events. apply flat_map_app. Qed.

Lemma release_broadcasts (msgs : list TextChannelMessage) :
  sent_events (channel_worker 0%nat 1%nat 2%nat (map MessageCreated msgs)) = map NewMessage msgs /\
  ~ In Panic (channel_worker 0%nat 1%nat 2%nat (map MessageCreated msgs)).
Proof.
  rewrite channel_worker_created.
  induction msgs as [|m msgs [IH1 IH2]]; [split; [reflexivity | intros []]|].
  cbn [flat_map]. split.
  - rewrite sent_events_app, IH1. reflexivity.
  - rewrite in_app_iff. intros [H|H]; [|exact (IH2 H)].
    simpl in H. destruct H as [H|[H|[H|[]]]]; discriminate.
Qed.

Lemma debug_broadcasts (msgs : list TextChannelMessage) :
  sent_events (channel_worker_checked 0%nat 1%nat 2%nat (map MessageCreated msgs)) =
    map NewMessage (take_while nanos_fit msgs) /\
  (In Panic (channel_worker_checked 0%nat 1%nat 2%nat (map MessageCreated msgs)) <->
   existsb (fun m => negb (nanos_fit m)) msgs = true).
Proof.
  induction msgs as [|m msgs [IH1 IH2]]; [split; [reflexivity | split; [intros [] | discriminate]]|].
  cbn [map channel_worker_checked take_while existsb].
  assert (E : nanos_fit m = negb (i64_mul_overflows (u64_as_i64 (timestamp_ms m)) 1000000000))
    by reflexivity.
  rewrite E.
  destruct (i64_mul_overflows (u64_as_i64 (timestamp_ms m)) 1000000000) eqn:Ho;
    cbn [negb orb]; unfold worker_step_checked; rewrite Ho.
  - split; [reflexivity|]. split; [intros _; reflexivity | intros _; right; now left].
  - rewrite sent_events_app, IH1. split; [reflexivity|].
    rewrite in_app_iff, <- IH2. split.
    + intros [H|H]; [|exact H]. simpl in H. destruct H as [H|[H|[H|[]]]]; discriminate.
    + intros H. now right.
Qed.

(** X6. On created messages a release build of the spawned worker
    broadcasts one [NewMessage] per message, in the order received, and
    never panics (the timestamp product wraps).  A debug build
    broadcasts the messages before the first one whose timestamp, read
    as seconds, overflows an i64 nanosecond count, and panics if and
    only if there is such a message. *)
Theorem worker_broadcasts_created (msgs : list TextChannelMessage) :
  (sent_events (spawned_worker (map MessageCreated msgs)) = map NewMessage msgs /\
   ~ In Panic (spawned_worker (map MessageCreated msgs))) /\
  (sent_events (spawned_worker_checked (map MessageCreated msgs)) =
     map NewMessage (take_while nanos_fit msgs) /\
   (In Panic (spawned_worker_checked (map MessageCreated msgs)) <->
    existsb (fun m => negb (nanos_fit m)) msgs = true)).
Proof.
  rewrite spawned_worker_fields, spawned_worker_checked_fields.
  split; [apply release_broadcasts | apply debug_broadcasts].
Qed.

(** X7. An edit stops the worker at its [todo!()]: in a release build it
    panics after handling the messages created before it, and nothing
    after the edit is processed; a debug build reaches the edit only if
    none of those messages overflowed, and otherwise has already
    stopped. *)
Theorem worker_stops_at_edit (pre : list TextChannelMessage) (post : list TextChannelAction) :
  spawned_worker (map MessageCreated pre ++ MessageEdited :: post) =
    spawned_worker (map MessageCreated pre) ++ [Panic] /\
  sent_events (spawned_worker (map MessageCreated pre ++ MessageEdited :: post)) =
    map NewMessage pre /\
  spawned_worker_checked (map MessageCreated pre ++ MessageEdited :: post) =
    (if forallb nanos_fit pre then spawned_worker (map MessageCreated pre) ++ [Panic]
     else spawned_worker_checked (map MessageCreated pre)).
Proof.
  rewrite !spawned_worker_fields, !spawned_worker_checked_fields.
  rewrite channel_worker_app_created, channel_worker_checked_app_created.
  split; [reflexivity|]. split.
  - rewrite sent_events_app, (proj1 (release_broadcasts pre)). simpl. apply app_nil_r.
  - destruct (forallb nanos_fit pre) eqn:Hf.
    + rewrite channel_worker_checked_fit by exact Hf. reflexivity.
    + apply app_nil_r.
Qed.

Lemma store_get_insert (k k' : list Z) (v : string) (st : Store) :
  store_get k (store_insert k' v st) =
  if list_eq_dec Z.eq_dec k k' then Some v else store_get k st.
Proof.
  induction st as [|[k1 v1] st IH]; simpl.
  - destruct (list_eq_dec Z.eq_dec k k'); reflexivity.
  - destruct (list_eq_dec Z.eq_dec k' k1) as [E|E]; simpl.
    + subst k1. destruct (list_eq_dec Z.eq_dec k k'); reflexivity.
    + destruct (list_eq_dec Z.eq_dec k k1) as [E1|E1].
      * subst k1. destruct (list_eq_dec Z.eq_dec k k'); [congruence | reflexivity].
      * exact IH.
Qed.

Lemma lex_le_refl (a : list Z) : lex_le a a = true.
Proof.
  induction a as [|x a IH]; [reflexivity|]. simpl. rewrite Z.eqb_refl, IH.
  apply orb_true_r.
Qed.

(** [u64::to_be_bytes] is injective on u64 values. *)
Lemma to_be_bytes_inj (t1 t2 : Z) :
  u64_ok t1 -> u64_ok t2 -> to_be_bytes t1 = to_be_bytes t2 -> t1 = t2.
Proof.
  intros H1 H2 E.
  assert (A := proj2 (to_be_bytes_order t1 t2 H1 H2)).
  assert (B := proj2 (to_be_bytes_order t2 t1 H2 H1)).
  rewrite E, lex_le_refl in A. rewrite E, lex_le_refl in B.
  specialize (A eq_refl). specialize (B eq_refl). lia.
Qed.

Lemma run_store_app (a b : list WorkerCall) (st : Store) :
  run_store (a ++ b) st = run_store b (run_store a st).
Proof. unfold run_store. apply fold_left_app. Qed.

(** One message's insert, seen from the key of [t]. *)
Lemma store_get_insert_msg (t : Z) (m : TextChannelMessage) (st : Store) (acc : option string) :
  u64_ok t -> u64_ok (timestamp_ms m) -> store_get (to_be_bytes t) st = acc ->
  store_get (to_be_bytes t) (store_insert (to_be_bytes (timestamp_ms m)) (content m) st) =
  (if timestamp_ms m =? t then Some (content m) else acc).
Proof.
  intros Ht Hm Hst. rewrite store_get_insert.
  destruct (list_eq_dec Z.eq_dec (to_be_bytes t) (to_be_bytes (timestamp_ms m))) as [E|E].
  - apply to_be_bytes_inj in E; [|exact Ht | exact Hm]. subst t. now rewrite Z.eqb_refl.
  - destruct (timestamp_ms m =? t) eqn:Et; [|exact Hst].
    apply Z.eqb_eq in Et. subst t. congruence.
Qed.

Lemma run_store_created (t : Z) (msgs : list TextChannelMessage) (st : Store) (acc : option string) :
  u64_ok t -> Forall (fun m => u64_ok (timestamp_ms m)) msgs ->
  store_get (to_be_bytes t) st = acc ->
  store_get (to_be_bytes t) (run_store (channel_worker 0%nat 1%nat 2%nat (map MessageCreated msgs)) st) =
  fold_left (fun acc m => if timestamp_ms m =? t then Some (content m) else acc) msgs acc.
Proof.
  revert st acc. induction msgs as [|m msgs IH]; intros st acc Ht Hms Hst; [exact Hst|].
  inversion Hms as [|? ? Hm Hms']; subst.
  cbn [map channel_worker]. rewrite run_store_app. apply IH; [exact Ht | exact Hms'|].
  cbn [worker_step run_store fold_left apply_call].
  now apply store_get_insert_msg.
Qed.

Lemma run_store_created_checked (t : Z) (msgs : list TextChannelMessage) (st : Store)
  (acc : option string) :
  u64_ok t -> Forall (fun m => u64_ok (timestamp_ms m)) msgs ->
  store_get (to_be_bytes t) st = acc ->
  store_get (to_be_bytes t)
    (run_store (channel_worker_checked 0%nat 1%nat 2%nat (map MessageCreated msgs)) st) =
  fold_left (fun acc m => if timestamp_ms m =? t then Some (content m) else acc)
    (take_through nanos_fit msgs) acc.
Proof.
  revert st acc. induction msgs as [|m msgs IH]; intros st acc Ht Hms Hst; [exact Hst|].
  inversion Hms as [|? ? Hm Hms']; subst.
  cbn [map channel_worker_checked take_through]. unfold nanos_fit at 1.
  unfold worker_step_checked.
  destruct (i64_mul_overflows (u64_as_i64 (timestamp_ms m)) 1000000000); cbn [negb].
  - cbn [run_store fold_left apply_call]. now apply store_get_insert_msg.
  - rewrite run_store_app. cbn [fold_left]. apply IH; [exact Ht | exact Hms'|].
    cbn [worker_step run_store fold_left apply_call].
    now apply store_get_insert_msg.
Qed.

(** X8. Starting from an empty keyspace, after a release build of the
    worker has stored a sequence of created messages, the key of
    timestamp [t] holds the content of the last message stamped [t]; a
    message sharing a millisecond with an earlier one overwrites it, and
    distinct timestamps never collide.  A debug build stores the messages
    up to and including the first whose timestamp overflows (its insert
    precedes the panic), and nothing after. *)
Theorem keyspace_holds_last_content (t : Z) (msgs : list TextChannelMessage) :
  u64_ok t -> Forall (fun m => u64_ok (timestamp_ms m)) msgs ->
  store_get (to_be_bytes t) (run_store (spawned_worker (map MessageCreated msgs)) []) =
    last_content t msgs /\
  store_get (to_be_bytes t) (run_store (spawned_worker_checked (map MessageCreated msgs)) []) =
    last_content t (take_through nanos_fit msgs).
Proof.
  intros Ht Hms. rewrite spawned_worker_fields, spawned_worker_checked_fields. split.
  - apply run_store_created; [exact Ht | exact Hms | reflexivity].
  - apply run_store_created_checked; [exact Ht | exact Hms | reflexivity].
Qed.

(** Three messages at realistic millisecond clock readings, two in the
    same millisecond. *)
Definition demo_msgs : list TextChannelMessage :=
  [ {| author := UserId_ 1; timestamp_ms := 1700000000000; content := "a" |};
    {| author := UserId_ 2; timestamp_ms := 1700000000001; content := "c" |};
    {| author := UserId_ 1; timestamp_ms := 1700000000000; content := "b" |} ]%string.

Lemma keyspace_holds_last_content_witness :
  u64_ok 1700000000000 /\
  Forall (fun m => u64_ok (timestamp_ms m)) demo_msgs /\
  store_get (to_be_bytes 1700000000000)
    (run_store (spawned_worker (map MessageCreated demo_msgs)) []) =
    last_content 1700000000000 demo_msgs /\
  store_get (to_be_bytes 1700000000000)
    (run_store (spawned_worker_checked (map MessageCreated demo_msgs)) []) =
    last_content 1700000000000 (take_through nanos_fit demo_msgs).
Proof.
  assert (H5 : u64_ok 1700000000000) by (unfold u64_ok, RustInt.U64_MAX; lia).
  assert (H6 : u64_ok 1700000000001) by (unfold u64_ok, RustInt.U64_MAX; lia).
  assert (Hms : Forall (fun m => u64_ok (timestamp_ms m)) demo_msgs)
    by (apply Forall_cons; [exact H5|]; apply Forall_cons; [exact H6|];
        apply Forall_cons; [exact H5|]; apply Forall_nil).
  split; [exact H5|]. split; [exact Hms|].
  apply (keyspace_holds_last_content 1700000000000 demo_msgs H5 Hms).
Defined.

End WorkerFacts.

(* ------------------------------------------------------------------ *)
(** ** The channel registry, the session table and the auth service     *)
(* ------------------------------------------------------------------ *)

Module RegistryFacts.
Import Ids Snowflake Server.

Lemma hm_insert_in {V} (k : ChannelId) (v : V) (m : list (ChannelId * V)) :
  In (k, v) (hm_insert k v m).
Proof.
  induction m as [|[k' v'] m IH]; simpl; [now left|].
  destruct (channel_raw k =? channel_raw k'); [now left | now right].
Qed.

Lemma hm_insert_keeps {V} (k k' : ChannelId) (v v' : V) (m : list (ChannelId * V)) :
  In (k', v') m -> channel_raw k' <> channel_raw k -> In (k', v') (hm_insert k v m).
Proof.
  induction m as [|[k1 v1] m IH]; simpl; [intros []|].
  intros [E|H] Hne.
  - injection E as -> ->. apply Z.eqb_neq in Hne. rewrite Z.eqb_sym, Hne. now left.
  - destruct (channel_raw k =? channel_raw k1); [now right | right; now apply IH].
Qed.

(** X9. With a non-empty label, storage that opens and an unpoisoned
    lock, [create_text_channel] returns the new channel under a freshly
    generated id with the requested label and the id as keyspace name;
    the channel is listed by [text_channels] and every channel with
    another id stays registered. *)
Theorem create_text_channel_registers (env : StorageEnv) (s : ServerState) (label : string)
  (now : Z) :
  label <> EmptyString ->
  first_error [keyspace_open env; index_dir_create env; index_dir_open env;
               index_open env; index_writer_open env] = None ->
  poisoned s = false ->
  exists ch,
    snd (create_text_channel env s label now) = RustInt.Ok ch /\
    channel_raw (tc_id ch) = fst (generate (id_generator s) now) /\
    tc_label ch = label /\
    tc_keyspace ch = RustInt.u64_to_string (channel_raw (tc_id ch)) /\
    In ch (text_channels (fst (create_text_channel env s label now))) /\
    (forall k v, In (k, v) (text_channel_table s) -> channel_raw k <> channel_raw (tc_id ch) ->
       In (k, v) (text_channel_table (fst (create_text_channel env s label now)))).
Proof.
  intros Hl He Hp. unfold create_text_channel.
  destruct (generate (id_generator s) now) as [raw gen'] eqn:Hg.
  unfold TextChannel_new. apply String.eqb_neq in Hl. rewrite Hl, He, Hp.
  eexists. split; [reflexivity|]. cbn. split; [reflexivity|].
  split; [reflexivity|]. split; [reflexivity|]. split.
  - unfold text_channels. cbn. apply (in_map snd _ (ChannelId_ raw, _)). apply hm_insert_in.
  - intros k v Hin Hne. apply hm_insert_keeps; assumption.
Qed.

Definition ok_env : StorageEnv :=
  {| keyspace_open := None; index_dir_create := None; index_dir_open := None;
     index_open := None; index_writer_open := None |}.

Lemma create_text_channel_registers_witness :
  "general"%string <> EmptyString /\
  first_error [keyspace_open ok_env; index_dir_create ok_env; index_dir_open ok_env;
               index_open ok_env; index_writer_open ok_env] = None /\
  poisoned Server_new = false /\
  exists ch,
    snd (create_text_channel ok_env Server_new "general" 7) = RustInt.Ok ch /\
    channel_raw (tc_id ch) = fst (generate (id_generator Server_new) 7) /\
    tc_label ch = "general"%string /\
    tc_keyspace ch = RustInt.u64_to_string (channel_raw (tc_id ch)) /\
    In ch (text_channels (fst (create_text_channel ok_env Server_new "general" 7))) /\
    (forall k v, In (k, v) (text_channel_table Server_new) ->
       channel_raw k <> channel_raw (tc_id ch) ->
       In (k, v) (text_channel_table (fst (create_text_channel ok_env Server_new "general" 7)))).
Proof.
  assert (H1 : "general"%string <> EmptyString) by discriminate.
  split; [exact H1|]. split; [reflexivity|]. split; [reflexivity|].
  apply (create_text_channel_registers ok_env Server_new "general" 7 H1); reflexivity.
Defined.

(** X10. A failed [create_text_channel] (storage error, empty label or
    poisoned lock) leaves the channel table as it was; the generator has
    still advanced past the id it drew. *)
Theorem create_text_channel_error_keeps_table (env : StorageEnv) (s : ServerState)
  (label : string) (now : Z) (e : CreateChannelError) :
  snd (create_text_channel env s label now) = RustInt.Err e ->
  text_channel_table (fst (create_text_channel env s label now)) = text_channel_table s /\
  id_generator (fst (create_text_channel env s label now)) = snd (generate (id_generator s) now).
Proof.
  unfold create_text_channel.
  destruct (generate (id_generator s) now) as [raw gen'] eqn:Hg.
  destruct (TextChannel_new env (ChannelId_ raw) label) as [ch|err]; simpl.
  - destruct (poisoned s); simpl; [intros _; split; reflexivity | discriminate].
  - intros _. split; reflexivity.
Qed.

Definition failing_env : StorageEnv :=
  {| keyspace_open := None; index_dir_create := Some SearchIndexPathError; index_dir_open := None;
     index_open := None; index_writer_open := None |}.

Lemma create_text_channel_error_keeps_table_witness :
  snd (create_text_channel failing_env Server_new "general" 7) =
    RustInt.Err (CreateTextChannelError SearchIndexPathError) /\
  text_channel_table (fst (create_text_channel failing_env Server_new "general" 7)) =
    text_channel_table Server_new /\
  id_generator (fst (create_text_channel failing_env Server_new "general" 7)) =
    snd (generate (id_generator Server_new) 7).
Proof.
  split; [reflexivity|].
  apply (create_text_channel_error_keeps_table failing_env Server_new "general" 7
           (CreateTextChannelError SearchIndexPathError)).
  reflexivity.
Defined.

End RegistryFacts.

Module SessionFacts.
Import Snowflake Client ClientOps.

(** X11. A created session is Connected, carries the client's identity,
    has never been contacted, is found in the table under its generated
    id, and leaves every other session id's entry unchanged. *)
Theorem create_session_registers (cs : ClientService) (ident : GatewayIdentify) (now : Z) :
  let (cs', sess) := create_session cs ident now in
  session_id sess = fst (generate (cs_id_generator cs) now) /\
  state sess = Connected /\ identity sess = ident /\ last_contact_s sess = 0 /\
  get_session cs' (session_id sess) = Some sess /\
  (forall k, k <> session_id sess -> get_session cs' k = get_session cs k).
Proof.
  unfold create_session. destruct (generate (cs_id_generator cs) now) as [id gen'] eqn:Hg.
  cbn. repeat split.
  - unfold get_session. cbn. now rewrite Z.eqb_refl.
  - intros k Hk. unfold get_session. cbn.
    apply Z.eqb_neq in Hk. now rewrite Z.eqb_sym, Hk.
Qed.

Lemma create_session_registers_witness :
  let (cs', sess) := create_session ClientService_new
                       {| token := "t"; client_agent := "a" |}%string 9 in
  session_id sess = fst (generate (cs_id_generator ClientService_new) 9) /\
  state sess = Connected /\ identity sess = {| token := "t"; client_agent := "a" |}%string /\
  last_contact_s sess = 0 /\
  get_session cs' (session_id sess) = Some sess /\
  (forall k, k <> session_id sess -> get_session cs' k = get_session ClientService_new k).
Proof.
  exact (create_session_registers ClientService_new {| token := "t"; client_agent := "a" |}%string 9).
Defined.

Lemma find_filter_other (id k : Z) (l : list (Z * Session)) :
  k <> id ->
  find (fun p => fst p =? k) (filter (fun p => negb (fst p =? id)) l) =
  find (fun p => fst p =? k) l.
Proof.
  intros Hk. induction l as [|[k' v] l IH]; [reflexivity|]. cbn [filter find fst].
  destruct (k' =? id) eqn:E1; cbn [negb find fst].
  - apply Z.eqb_eq in E1. subst k'. apply Z.eqb_neq in Hk. rewrite Z.eqb_sym, Hk. exact IH.
  - rewrite IH. reflexivity.
Qed.

Lemma find_filter_self (id : Z) (l : list (Z * Session)) :
  find (fun p => fst p =? id) (filter (fun p => negb (fst p =? id)) l) = None.
Proof.
  induction l as [|[k' v] l IH]; [reflexivity|]. cbn [filter fst].
  destruct (k' =? id) eqn:E1; cbn [negb find fst]; [exact IH|]. rewrite E1. exact IH.
Qed.

(** X12. [close_session] removes the id's session and no other. *)
Theorem close_session_removes_only (cs : ClientService) (id : Z) :
  get_session (close_session cs id) id = None /\
  (forall k, k <> id -> get_session (close_session cs id) k = get_session cs k) /\
  cs_id_generator (close_session cs id) = cs_id_generator cs.
Proof.
  unfold get_session, close_session. cbn [sessions cs_id_generator].
  split; [|split; [|reflexivity]].
  - now rewrite find_filter_self.
  - intros k Hk. now rewrite find_filter_other.
Qed.

Lemma close_session_removes_only_witness :
  let cs := fst (create_session ClientService_new {| token := "t"; client_agent := "a" |}%string 9) in
  get_session (close_session cs 3) 3 = None /\
  (forall k, k <> 3 -> get_session (close_session cs 3) k = get_session cs k) /\
  cs_id_generator (close_session cs 3) = cs_id_generator cs.
Proof.
  exact (close_session_removes_only
           (fst (create_session ClientService_new {| token := "t"; client_agent := "a" |}%string 9)) 3).
Defined.

End SessionFacts.

Module AuthFacts.
Import Auth AuthOAuth.

Lemma find_provider_spec (auth : AuthService) (provider : string) (c : OauthClient) :
  find_provider auth provider = Some c ->
  In c (oauth2_clients (config auth)) /\ provider_id c = provider.
Proof.
  unfold find_provider. intros H. apply find_some in H as [Hin Heq].
  split; [exact Hin | now apply String.eqb_eq].
Qed.

Lemma find_provider_none (auth : AuthService) (provider : string) :
  (forall c, In c (oauth2_clients (config auth)) -> provider_id c <> provider) ->
  find_provider auth provider = None.
Proof.
  intros H. unfold find_provider.
  destruct (find _ _) as [c|] eqn:E; [|reflexivity].
  apply find_some in E as [Hin Heq]. apply String.eqb_eq in Heq.
  exfalso. exact (H c Hin Heq).
Qed.

(** X13. [oauth2_authorize_web] returns a URL only for a configured
    provider whose endpoints parse, and the URL is the one built from
    that provider's client; for an unknown provider it returns [None]. *)
Theorem oauth2_authorize_web_provider urls_valid authorize_url (auth : AuthService)
  (provider : string) :
  ((forall c, In c (oauth2_clients (config auth)) -> provider_id c <> provider) ->
     oauth2_authorize_web urls_valid authorize_url auth provider = Returned None) /\
  (forall u, oauth2_authorize_web urls_valid authorize_url auth provider = Returned (Some u) ->
     exists c, In c (oauth2_clients (config auth)) /\ provider_id c = provider /\
               urls_valid c = true /\ u = authorize_url c).
Proof.
  split.
  - intros H. unfold oauth2_authorize_web. now rewrite find_provider_none.
  - intros u. unfold oauth2_authorize_web.
    destruct (find_provider auth provider) as [c|] eqn:E; [|discriminate].
    destruct (urls_valid c) eqn:Hv; [|discriminate].
    intros H. injection H as <-.
    apply find_provider_spec in E as [Hin Hid]. exists c. auto.
Qed.

Definition github : OauthClient :=
  {| provider_id := "github"; client_id := "id"; scopes := [] |}%string.

Definition demo_auth : AuthService := AuthService_new {| oauth2_clients := [github] |}.

Lemma oauth2_authorize_web_provider_witness :
  oauth2_authorize_web (fun _ => true) (fun c => client_id c) demo_auth "gitlab" = Returned None /\
  exists c, In c (oauth2_clients (config demo_auth)) /\ provider_id c = "github"%string /\
            true = true /\ "id"%string = client_id c.
Proof.
  split.
  - apply (proj1 (oauth2_authorize_web_provider (fun _ => true) (fun c => client_id c)
                    demo_auth "gitlab")).
    intros c [<-|[]]. discriminate.
  - apply (proj2 (oauth2_authorize_web_provider (fun _ => true) (fun c => client_id c)
                    demo_auth "github") "id"%string).
    reflexivity.
Defined.

(** X14. [oauth2_code_exchange_web] never returns a token.  For a
    provider id no configured client has it returns [None]; for the
    first configured client with that id it panics at the endpoint
    [expect] when the client's URLs do not parse, returns [None] when the
    exchange fails, and panics at the [todo!()] when it succeeds. *)
Theorem oauth2_code_exchange_web_no_token urls_valid exchange_ok (auth : AuthService)
  (provider code : string) :
  ((forall c, In c (oauth2_clients (config auth)) -> provider_id c <> provider) ->
     oauth2_code_exchange_web urls_valid exchange_ok auth provider code = Returned None) /\
  (forall p, find_provider auth provider = Some p ->
     oauth2_code_exchange_web urls_valid exchange_ok auth provider code =
       if urls_valid p then (if exchange_ok p code then Panicked else Returned None)
       else Panicked) /\
  (forall tok, oauth2_code_exchange_web urls_valid exchange_ok auth provider code <>
     Returned (Some tok)).
Proof.
  split; [|split].
  - intros H. unfold oauth2_code_exchange_web. now rewrite find_provider_none.
  - intros p Hp. unfold oauth2_code_exchange_web. now rewrite Hp.
  - intros tok. unfold oauth2_code_exchange_web.
    destruct (find_provider auth provider) as [c|]; [|discriminate].
    destruct (urls_valid c); [destruct (exchange_ok c code)|]; discriminate.
Qed.

Lemma oauth2_code_exchange_web_no_token_witness :
  oauth2_code_exchange_web (fun _ => true) (fun _ code => String.eqb code "good")
    demo_auth "gitlab" "good" = Returned None /\
  oauth2_code_exchange_web (fun _ => true) (fun _ code => String.eqb code "good")
    demo_auth "github" "good" = Panicked /\
  oauth2_code_exchange_web (fun _ => true) (fun _ code => String.eqb code "good")
    demo_auth "github" "bad" = Returned None.
Proof.
  split; [|split].
  - apply (proj1 (oauth2_code_exchange_web_no_token (fun _ => true)
                    (fun _ code => String.eqb code "good") demo_auth "gitlab" "good")).
    intros c [<-|[]]. discriminate.
  - apply (proj1 (proj2 (oauth2_code_exchange_web_no_token (fun _ => true)
                    (fun _ code => String.eqb code "good") demo_auth "github" "good")) github).
    reflexivity.
  - apply (proj1 (proj2 (oauth2_code_exchange_web_no_token (fun _ => true)
                    (fun _ code => String.eqb code "good") demo_auth "github" "bad")) github).
    reflexivity.
Defined.

End AuthFacts.

(* ------------------------------------------------------------------ *)
(** ** The gateway socket                                              *)
(* ------------------------------------------------------------------ *)

Module SocketFacts.
Import Client Gateway GatewaySend GatewayView.

(** X15. While no frame is a ping and every text frame is well-formed
    JSON, [task_receive] forwards exactly the frames that decode to a
    client event, in order, skipping the others; it leaves the session
    untouched and reads the stream to its end. *)
Theorem task_receive_forwards_decoded {J E : Type} jfb (de : J -> option E) dec
  (sess : Session) (frames : list Frame) :
  forallb (receive_quiet jfb) frames = true ->
  task_receive jfb de dec true sess frames =
  {| forwarded := flat_map (fun f => match frame_event jfb de dec f with
                                      | Some ev => [ev] | None => [] end) frames;
     final_session := sess; unread := []; ended := StreamClosed |}.
Proof.
  induction frames as [|[t recv] frames IH]; intros H; [reflexivity|].
  cbn [forallb] in H. apply andb_prop in H as [Hf Hfs].
  unfold receive_quiet in Hf. unfold frame_event. cbn [snd flat_map task_receive] in *.
  destruct recv as [m|]; [|apply IH, Hfs].
  destruct m as [text|bytes|bytes|bytes|]; try discriminate; try (apply IH, Hfs).
  - destruct (jfb text) as [v|]; [|discriminate].
    destruct (de v) as [ev|]; [|apply IH, Hfs].
    rewrite (IH Hfs). reflexivity.
  - destruct (dec bytes) as [ev|]; [|apply IH, Hfs].
    rewrite (IH Hfs). reflexivity.
Qed.

Definition demo_frames : list Frame :=
  [ (1, Some (WText "ok")); (2, Some (WPong [])); (3, None);
    (4, Some (WText "skip")); (5, Some (WBinary [7])); (6, Some WClose) ]%string.

Definition web_session : Session :=
  Session_new 11 Connected {| token := "t"; client_agent := "web" |}%string.

Definition demo_json (s : string) : option string := Some s.
Definition demo_event (v : string) : option nat := if String.eqb v "ok" then Some 1%nat else None.
Definition demo_binary (b : list Z) : option nat := Some (List.length b).

Lemma task_receive_forwards_decoded_witness :
  forallb (receive_quiet demo_json) demo_frames = true /\
  task_receive demo_json demo_event demo_binary true web_session demo_frames =
  {| forwarded := [1%nat; 1%nat]; final_session := web_session; unread := [];
     ended := StreamClosed |}.
Proof.
  split; [reflexivity|].
  rewrite (task_receive_forwards_decoded demo_json demo_event demo_binary web_session
             demo_frames eq_refl).
  reflexivity.
Defined.

Lemma receive_identity_skip {J : Type} jfb (di : J -> option GatewayIdentify) dci
  (pre : list Frame) (rest : list Frame) :
  forallb (identify_skipped jfb di dci) pre = true ->
  receive_identity_message J jfb di dci (pre ++ rest) = receive_identity_message J jfb di dci rest.
Proof.
  induction pre as [|[t recv] pre IH]; intros H; [reflexivity|].
  cbn [forallb] in H. apply andb_prop in H as [Hf Hp].
  unfold identify_skipped in Hf. cbn [snd] in Hf. cbn [List.app receive_identity_message].
  destruct recv as [m|]; [|discriminate].
  destruct m as [text|bytes|bytes|bytes|]; try (apply IH, Hp).
  - destruct (jfb text) as [v|]; [|discriminate].
    destruct (di v); [discriminate | apply IH, Hp].
  - destruct (dci bytes); [discriminate | apply IH, Hp].
Qed.

(** X16. [receive_identity_message] skips control frames and
    well-formed messages that are not an identity; the first frame
    carrying an identity ends it with that identity, and a transport
    error first ends it with none; either way it has consumed exactly
    the frames up to that one. *)
Theorem receive_identity_first {J : Type} jfb (di : J -> option GatewayIdentify) dci
  (pre : list Frame) (f : Frame) (post : list Frame) :
  forallb (identify_skipped jfb di dci) pre = true ->
  (forall i, frame_identity jfb di dci f = Some i ->
     receive_identity_message J jfb di dci (pre ++ f :: post) = (Identified i, post)) /\
  (snd f = None -> receive_identity_message J jfb di dci (pre ++ f :: post) = (NoIdentity, post)).
Proof.
  intros H. rewrite receive_identity_skip by exact H.
  destruct f as [t recv]. unfold frame_identity. cbn [snd receive_identity_message].
  split; [|intros ->; reflexivity].
  intros i Hi. destruct recv as [m|]; [|discriminate].
  destruct m as [text|bytes|bytes|bytes|]; try discriminate.
  - destruct (jfb text) as [v|]; [|discriminate]. now rewrite Hi.
  - now rewrite Hi.
Qed.

Definition demo_identify (v : string) : option GatewayIdentify :=
  if String.eqb v "id" then Some {| token := "t"; client_agent := "web" |}%string else None.
Definition demo_identify_binary (b : list Z) : option GatewayIdentify := None.

Definition skipped_frames : list Frame :=
  [(1, Some (WPing [])); (2, Some (WText "hello")); (3, Some (WBinary [1]))]%string.

Lemma receive_identity_first_witness :
  forallb (identify_skipped demo_json demo_identify demo_identify_binary) skipped_frames = true /\
  receive_identity_message string demo_json demo_identify demo_identify_binary
    (skipped_frames ++ (4, Some (WText "id"%string)) :: [(5, None)]) =
  (Identified {| token := "t"; client_agent := "web" |}%string, [(5, None)]).
Proof.
  split; [reflexivity|].
  apply (proj1 (receive_identity_first demo_json demo_identify demo_identify_binary
                  skipped_frames (4, Some (WText "id"%string)) [(5, None)] eq_refl)).
  reflexivity.
Defined.

(** X17. A gateway connection never opens a session: whatever the
    request and the frames, the client table is left as it was and the
    socket ends at the version check, at the identity or at the token
    check. *)
Theorem gateway_connection_never_streams {J : Type} jfb (di : J -> option GatewayIdentify) dci
  (auth : Auth.AuthService) (clients : ClientService) (query : GatewayQuery)
  (frames : list Frame) (now : Z) :
  fst (gateway_connection J jfb di dci auth clients query frames now) = clients /\
  forall s, snd (gateway_connection J jfb di dci auth clients query frames now) <> Some (Streamed s).
Proof.
  unfold gateway_connection.
  destruct (ws_handler query); [split; [reflexivity | discriminate]|].
  unfold handle_socket.
  destruct (fst (receive_identity_message J jfb di dci frames)) as [i| |];
    split; try reflexivity; try discriminate.
Qed.

(** X18. With JSON encoding and an open socket, [task_send] sends one
    text frame per event delivered, in order, each the event's JSON,
    skipping receive errors, and keeps waiting. *)
Theorem task_send_json_frames {SE : Type} encode_pb to_json (rs : list (RecvResult SE)) :
  task_send SE encode_pb to_json true Json rs =
  (map (fun e => WText (to_json e)) (received_events rs), Pending).
Proof.
  induction rs as [|[e|] rs IH]; [reflexivity| |exact IH].
  cbn [task_send received_events flat_map option_map]. rewrite IH. reflexivity.
Qed.

(** X19. With Protobuf encoding and an open socket, [task_send] sends
    the binary encodings of the events up to the first one that fails to
    encode, and stops there. *)
Theorem task_send_protobuf_stops {SE : Type} encode_pb to_json
  (pre : list (RecvResult SE)) (e : SE) (post : list (RecvResult SE)) :
  forallb (fun ev => match encode_pb ev with Some _ => true | None => false end)
    (received_events pre) = true ->
  encode_pb e = None ->
  task_send SE encode_pb to_json true Protobuf (pre ++ Recv SE e :: post) =
  (flat_map (fun ev => match encode_pb ev with Some b => [WBinary b] | None => [] end)
     (received_events pre), EncodeFailed).
Proof.
  intros Hpre He. induction pre as [|[ev|] pre IH].
  - cbn. now rewrite He.
  - cbn [received_events flat_map List.app forallb] in Hpre |- *.
    destruct (encode_pb ev) as [b|] eqn:Eb; [|discriminate].
    cbn [task_send option_map]. rewrite Eb. rewrite (IH Hpre). reflexivity.
  - apply IH. exact Hpre.
Qed.

Definition demo_pb (n : nat) : option (list Z) := if (n =? 0)%nat then None else Some [Z.of_nat n].

Lemma task_send_protobuf_stops_witness :
  forallb (fun ev => match demo_pb ev with Some _ => true | None => false end)
    (received_events [Recv nat 3%nat; RecvError nat; Recv nat 5%nat]) = true /\
  demo_pb 0%nat = None /\
  task_send nat demo_pb (fun _ => EmptyString) true Protobuf
    ([Recv nat 3%nat; RecvError nat; Recv nat 5%nat] ++ Recv nat 0%nat :: [Recv nat 4%nat]) =
  ([WBinary [3]; WBinary [5]], EncodeFailed).
Proof.
  split; [reflexivity|]. split; [reflexivity|].
  apply (task_send_protobuf_stops demo_pb (fun _ => EmptyString)
           [Recv nat 3%nat; RecvError nat; Recv nat 5%nat] 0%nat [Recv nat 4%nat]
           eq_refl eq_refl).
Defined.

End SocketFacts.

Module CodecExamples.
Import RustInt Ids.
Example e1 : u64_to_string 1203 = "1203"%string. Proof. reflexivity. Qed.
Example e2 : u64_from_str "1203" = Ok 1203. Proof. reflexivity. Qed.
Example e3 : u64_from_str "+7" = Ok 7. Proof. reflexivity. Qed.
Example e4 : u64_from_str "-7" = perr InvalidDigit. Proof. reflexivity. Qed.
Example e5 : i64_from_str "-7" = Ok (-7). Proof. reflexivity. Qed.
Example e6 : u64_from_str "18446744073709551616" = perr PosOverflow. Proof. reflexivity. Qed.
Example e7 : i64_to_string (-9223372036854775808) = "-9223372036854775808"%string. Proof. reflexivity. Qed.
Example e8 : i64_from_str "-9223372036854775808" = Ok (-9223372036854775808). Proof. reflexivity. Qed.
Import Message.
Example m1 : decode_message_part (format_channel (ChannelId_ 5)) = User (UserId_ 5). Proof. reflexivity. Qed.
Example m2 : decode_message_part (format_role (RoleId_ 5)) = Role (RoleId_ 5). Proof. reflexivity. Qed.
Example m3 : decode_message_part "<@&x>" = Text "<@&x>". Proof. reflexivity. Qed.
Example m4 : decode_message_part (format_timestamp (-3)) = Timestamp (-3). Proof. reflexivity. Qed.
End CodecExamples.
